(** * isric: a crawler that mirrors tile images of an online archive

    The repository holds two variants of the same program:
    - [src/main.go]: the plain crawler, whose discovery channels are closed
      by their producers;
    - [src/unnamed/part_000]: the crawler with cooperative cancellation
      (a shared [terminate] channel), whose producers do not close their
      channels.
    Functions that are textually the same in both files are embedded once;
    [handle], [getTifUrls] and [parseURLs] are embedded per file, in the
    modules [Plain] and [Cancellable].

    Go strings are byte strings: they are modelled by [string].  Library
    calls whose result depends on the outside world (HTTP, the file system,
    URL parsing, the regexp engine on user-supplied patterns) are answered by
    a [World] record of oracles. *)

From Stdlib Require Import String Ascii List Bool Arith ZArith Lia.
Import ListNotations.
Open Scope string_scope.

(** ** Go's [strings] package *)

Module strings.

(** [strings.Split(s, sep)] for a one-byte separator: the fields between the
    occurrences of [sep]; always at least one field. *)
Fixpoint Split (sep : ascii) (s : string) : list string :=
  match s with
  | EmptyString => [EmptyString]
  | String c r =>
      if Ascii.eqb c sep then EmptyString :: Split sep r
      else match Split sep r with
           | f :: fs => String c f :: fs
           | [] => [String c EmptyString]
           end
  end.

(** [strings.Join(elems, sep)]. *)
Definition Join (elems : list string) (sep : string) : string :=
  String.concat sep elems.

(** [strings.Builder]: the bytes written so far. *)
Definition Builder := string.
Definition Builder_Len (b : Builder) : nat := String.length b.
Definition Builder_WriteString (b : Builder) (s : string) : Builder := b ++ s.

End strings.

(** The double-quote byte (34) and the line feed (10). *)
Definition dquote : string := String (ascii_of_nat 34) EmptyString.
Definition newline : ascii := ascii_of_nat 10.

(** ** Link Template Builder ([buildLinkTemplates], same in both files) *)

(** The inner loop over the [|]-separated parts of one range, threading the
    [strings.Builder]. *)
Definition buildTemplate (p : string) : string :=
  fold_left
    (fun tplBuilder part =>
       let b1 := if Nat.ltb 0 (strings.Builder_Len tplBuilder)
                 then strings.Builder_WriteString tplBuilder "|"
                 else tplBuilder in
       let b2 := strings.Builder_WriteString b1 "tileSG-" in
       strings.Builder_WriteString b2 part)
    (strings.Split "|"%char p) EmptyString.

Definition buildLinkTemplates (ranges : list string) : list string :=
  fold_left (fun templates p => (templates ++ [buildTemplate p])%list) ranges [].

(** What the specification says of one template: every [|]-delimited part
    prefixed by [tileSG-], the parts rejoined with [|]. *)
Definition spec_template (p : string) : string :=
  strings.Join (map (fun part => "tileSG-" ++ part) (strings.Split "|"%char p)) "|".

(** ** Go's [path] package *)

Module path.

(** One element of the path seen by [Clean].  The state is the number of
    leading [..] elements kept (unrooted paths only) and the real elements
    written after them, the last one first. *)
Definition clean_step (rooted : bool) (st : nat * list string) (e : string)
  : nat * list string :=
  let '(dotdot, out) := st in
  if String.eqb e "" then st
  else if String.eqb e "." then st
  else if String.eqb e ".." then
    match out with
    | _ :: out' => (dotdot, out')
    | [] => if rooted then st else (S dotdot, [])
    end
  else (dotdot, e :: out).

(** [path.Clean]: collapse repeated slashes, drop [.] elements, resolve
    [..] against the element before it, drop [..] at the root; the empty
    result is [.]. *)
Definition Clean (p : string) : string :=
  match p with
  | EmptyString => "."
  | String c _ =>
      let rooted := Ascii.eqb c "/" in
      let '(dotdot, out) :=
        fold_left (clean_step rooted) (strings.Split "/" p) (0, []) in
      let elems := (repeat ".." dotdot ++ rev out)%list in
      if rooted then "/" ++ strings.Join elems "/"
      else match elems with
           | [] => "."
           | _ => strings.Join elems "/"
           end
  end.

(** [path.Join]: the elements joined by slashes, from the first non-empty
    one on, then cleaned; the empty string when all are empty. *)
Definition Join (elem : list string) : string :=
  if Nat.eqb (list_sum (map String.length elem)) 0 then EmptyString
  else
    Clean
      (fold_left
         (fun buf e =>
            if Nat.ltb 0 (String.length buf) || negb (String.eqb e "")
            then (if Nat.ltb 0 (String.length buf) then buf ++ "/" else buf) ++ e
            else buf)
         elem EmptyString).

End path.

(** ** Data model *)

(** [net/url.URL], its string fields.  The program copies the struct and
    assigns [Path]. *)
Record URL := mkURL {
  Scheme : string;
  Opaque : string;
  Host : string;
  Path : string;
  RawPath : string;
  RawQuery : string;
  Fragment : string
}.

(** The assignment [u.Path = p] on a copy of [u]. *)
Definition set_Path (u : URL) (p : string) : URL :=
  {| Scheme := Scheme u; Opaque := Opaque u; Host := Host u; Path := p;
     RawPath := RawPath u; RawQuery := RawQuery u; Fragment := Fragment u |}.

Record PageParam := mkPageParam {
  Name : string;
  Url : string;
  PageRanges : list string
}.

Record Config := mkConfig {
  TargetDir : string;
  Pages : list PageParam
}.

(** Error values, by the place that builds them. *)
Inductive error : Type :=
| ErrDo (u : URL)                      (* http.NewRequest or client.Do *)
| ErrReadAll (u : URL)                 (* ioutil.ReadAll *)
| ErrRequestPage (u : URL) (e : error) (* unable to request page %s: %v *)
| ErrGetHTML (e : error)               (* error to get html page: %v *)
| ErrMkdirAll (dir : string)           (* unable to create dir %s: %v *)
| ErrCreate (name : string)            (* os.Create *)
| ErrDownload (e : error)              (* unable to downoad file: %v *)
| ErrCopy (name : string).             (* io.Copy *)

(** A response body: the bytes it delivers, and whether reading them ends
    in an error instead of EOF. *)
Record Body := mkBody { data : string; read_fails : bool }.

(** What the program does to the outside world, in order. *)
Inductive event : Type :=
| EvDo (u : URL) (ok : bool)            (* client.Do(request) *)
| EvReadAll (u : URL) (ok : bool)       (* ioutil.ReadAll(response.Body) *)
| EvStat (dir : string)                 (* os.Stat *)
| EvMkdirAll (dir : string) (ok : bool) (* os.MkdirAll(dir, 0755) *)
| EvCreate (name : string) (ok : bool)  (* os.Create *)
| EvCopy (name : string) (n : Z) (ok : bool) (* io.Copy(file, response.Body) *)
| EvPoll (closed : bool)                (* select on terminate, with default *)
| EvDownloading (u : URL)               (* fmt.Printf Downlading %s *)
| EvPrintln (s : string)                (* fmt.Println *)
| EvLogPage (u : URL) (e : error)       (* log.Printf error to get html page *)
| EvLogDownload (u : URL) (e : error)   (* log.Printf unable to download file *)
| EvFatalf (u : URL) (e : error)        (* log.Fatalf unable to request page *)
| EvHandlingFailed (name : string) (e : error). (* fmt.Printf handling %s failed *)

(** The clock of a Job counts the blocking calls (network and file system)
    that it has completed; it is the index at which the world is asked.  It
    is not real time: the token may change between any two events of a Job,
    see [observes]. *)
Definition tick (e : event) : nat :=
  match e with
  | EvDo _ _ | EvReadAll _ _ | EvStat _ | EvMkdirAll _ _
  | EvCreate _ _ | EvCopy _ _ _ => 1
  | _ => 0
  end.

Definition elapsed (es : list event) : nat := list_sum (map tick es).

(** The outside world.  Every oracle that depends on the moment of the call
    takes the time (the number of blocking calls the Job has completed). *)
Record World := mkWorld {
  (** [url.Parse]; [None] when it returns a nil URL and an error. *)
  url_Parse : string -> option URL;
  (** [regexp.MustCompile(re).FindAllStringSubmatch(s, -1)], each match
      projected on its group 1; [None] when [MustCompile] panics. *)
  regexp_group1 : string -> string -> option (list string);
  (** [request]: [None] when [http.NewRequest] or [client.Do] fails. *)
  http_Do : nat -> URL -> option Body;
  (** [os.IsNotExist] of the error of [os.Stat]. *)
  os_Stat_IsNotExist : nat -> string -> bool;
  (** [os.MkdirAll(dir, 0755)] returns nil. *)
  os_MkdirAll : nat -> string -> bool;
  (** [os.Create] returns nil as its error. *)
  os_Create : nat -> string -> bool;
  (** [io.Copy(file, body)]: bytes written, and whether the error is nil. *)
  io_Copy : nat -> string -> Body -> Z * bool;
  (** What a poll of [terminate] finds closed, asked at this index. *)
  terminate_closed : nat -> bool
}.

(** ** Computations *)

(** How a computation ends. *)
Inductive result (A : Type) : Type :=
| Ret (a : A)            (* it returns *)
| Panic (msg : string)   (* a run-time panic, which nothing recovers *)
| Exit (code : Z)        (* os.Exit, through log.Fatalf *)
| Block.                 (* it waits for ever on a channel *)
Arguments Ret {A} a.
Arguments Panic {A} msg.
Arguments Exit {A} code.
Arguments Block {A}.

(** A computation started at a given time emits events and ends. *)
Definition M (A : Type) : Type := nat -> list event * result A.

Definition ret {A} (a : A) : M A := fun _ => ([], Ret a).
Definition panic {A} (msg : string) : M A := fun _ => ([], Panic msg).
Definition exit {A} (code : Z) : M A := fun _ => ([], Exit code).
Definition block {A} : M A := fun _ => ([], Block).
Definition emit (e : event) : M unit := fun _ => ([e], Ret tt).
Definition now : M nat := fun t => ([], Ret t).

Definition bind {A B} (m : M A) (k : A -> M B) : M B :=
  fun t =>
    let '(es, r) := m t in
    match r with
    | Ret a => let '(es', r') := k a (t + elapsed es) in ((es ++ es')%list, r')
    | Panic msg => (es, Panic msg)
    | Exit code => (es, Exit code)
    | Block => (es, Block)
    end.

Notation "x <- m ;; k" := (bind m (fun x => k))
  (at level 61, m at next level, right associativity).
Notation "m ;;; k" := (bind m (fun _ => k))
  (at level 61, right associativity).

(** ** Slices *)

(** [s[lo:hi]]; [None] is the panic slice bounds out of range. *)
Definition slice {A} (s : list A) (lo hi : Z) : option (list A) :=
  if (0 <=? lo)%Z && (lo <=? hi)%Z && (hi <=? Z.of_nat (List.length s))%Z
  then Some (firstn (Z.to_nat (hi - lo)) (skipn (Z.to_nat lo) s))
  else None.

(** [s[i]]; [None] is the panic index out of range. *)
Definition index {A} (s : list A) (i : Z) : option A :=
  if (0 <=? i)%Z then nth_error s (Z.to_nat i) else None.

(** ** The pattern of [getTifUrls]

    The regular expression is [href=Q(.*\.tif)Q], Q the double quote.  Go
    matches leftmost-first: a match starts at the first [href=Q] that can be
    completed, the star is greedy and the dot takes any character but the
    line feed, so group 1 runs up to the last [.tifQ] of the line.  All the
    literals are ASCII, so matching bytes and matching runes agree. *)

Definition href_open : string := "href=" ++ dquote.
Definition tif_close : string := ".tif" ++ dquote.

(** [strings.HasPrefix]-like cut: the rest of [s] after [p]. *)
Fixpoint strip_prefix (p s : string) : option string :=
  match p, s with
  | EmptyString, _ => Some s
  | String a p', String b s' =>
      if Ascii.eqb a b then strip_prefix p' s' else None
  | String _ _, EmptyString => None
  end.

(** The greedy star followed by [.tifQ], from the start of [r]: the
    characters taken by the star, if the rest of the pattern can match. *)
Fixpoint star_tif (r : string) : option string :=
  let here :=
    match strip_prefix tif_close r with
    | Some _ => Some EmptyString
    | None => None
    end in
  match r with
  | EmptyString => here
  | String c r' =>
      if Ascii.eqb c newline then here
      else match star_tif r' with
           | Some taken => Some (String c taken)
           | None => here
           end
  end.

(** A match of the whole pattern at the start of [s]: group 1 and the
    length of the match. *)
Definition tif_match_here (s : string) : option (string * nat) :=
  match strip_prefix href_open s with
  | None => None
  | Some r =>
      match star_tif r with
      | None => None
      | Some taken =>
          Some (taken ++ ".tif",
                String.length href_open + String.length taken
                + String.length tif_close)
      end
  end.

(** [FindAllStringSubmatch(s, -1)] projected on group 1: the matches from
    left to right, not overlapping.  [skip] counts the characters of the
    previous match still to pass. *)
Fixpoint tif_find_all (skip : nat) (s : string) : list string :=
  match s with
  | EmptyString => []
  | String _ s' =>
      match skip with
      | S k => tif_find_all k s'
      | O =>
          match tif_match_here s with
          | Some (g1, len) => g1 :: tif_find_all (len - 1) s'
          | None => tif_find_all 0 s'
          end
      end
  end.

Definition tif_group1 (page : string) : list string := tif_find_all 0 page.

(** What the specification says instead: the characters before [.tif] are
    matched non-greedily, so group 1 ends at the first [.tifQ] of the line. *)
Fixpoint lazy_tif (r : string) : option string :=
  match strip_prefix tif_close r with
  | Some _ => Some EmptyString
  | None =>
      match r with
      | EmptyString => None
      | String c r' =>
          if Ascii.eqb c newline then None
          else match lazy_tif r' with
               | Some taken => Some (String c taken)
               | None => None
               end
      end
  end.

Definition spec_tif_match_here (s : string) : option (string * nat) :=
  match strip_prefix href_open s with
  | None => None
  | Some r =>
      match lazy_tif r with
      | None => None
      | Some taken =>
          Some (taken ++ ".tif",
                String.length href_open + String.length taken
                + String.length tif_close)
      end
  end.

Fixpoint spec_tif_find_all (skip : nat) (s : string) : list string :=
  match s with
  | EmptyString => []
  | String _ s' =>
      match skip with
      | S k => spec_tif_find_all k s'
      | O =>
          match spec_tif_match_here s with
          | Some (g1, len) => g1 :: spec_tif_find_all (len - 1) s'
          | None => spec_tif_find_all 0 s'
          end
      end
  end.

Definition spec_tif_group1 (page : string) : list string :=
  spec_tif_find_all 0 page.

(** ** Channels *)

(** What a producer goroutine does to its channel, in order.  A list that
    ends without [Close] is a goroutine that returns and leaves the channel
    open. *)
Inductive chan_op : Type :=
| Send (u : URL)
| Close
| GoPanic (msg : string).

(** [for u := range ch { body }] against the producer [ops].  The body
    answers [None] to go on with the next value and [Some v] to return [v]
    from the enclosing function.  Receiving from an open channel that no
    goroutine will send on or close blocks for ever.  A panic of the producer
    is taken at the receive that would have met it. *)
Fixpoint range {R} (ops : list chan_op) (body : URL -> M (option R))
  : M (option R) :=
  match ops with
  | [] => block
  | Close :: _ => ret None
  | GoPanic msg :: _ => panic msg
  | Send u :: rest =>
      r <- body u ;;
      match r with
      | Some v => ret (Some v)
      | None => range rest body
      end
  end.

(** The values a producer sends before it closes, panics or returns. *)
Fixpoint sent (ops : list chan_op) : list URL :=
  match ops with
  | Send u :: rest => u :: sent rest
  | _ => []
  end.

(** ** The program *)

Section Program.

Variable w : World.
(** The global [config], set once by [main] before any Job starts. *)
Variable config : Config.

(** [request]: one GET with the fixed headers and the 30 s timeout. *)
Definition request (url : URL) : M (option Body) :=
  t <- now ;;
  let resp := http_Do w t url in
  emit (EvDo url (match resp with Some _ => true | None => false end)) ;;;
  ret resp.

(** [getHTML]: the body of the page and a nil error, or an error. *)
Definition getHTML (url : URL) : M (string * option error) :=
  response <- request url ;;
  match response with
  | None => ret (EmptyString, Some (ErrRequestPage url (ErrDo url)))
  | Some body =>
      emit (EvReadAll url (negb (read_fails body))) ;;;
      ret (data body,
           if read_fails body then Some (ErrReadAll url) else None)
  end.

(** [createFile]: the open file (its name) and a nil error, or an error. *)
Definition createFile (urlPath : string) : M (string * option error) :=
  let parts := strings.Split "/" urlPath in
  let len := Z.of_nat (List.length parts) in
  match slice parts (len - 3) (len - 1) with
  | None => panic "slice bounds out of range"
  | Some middle =>
      let dir := path.Join [TargetDir config; strings.Join middle "/"] in
      t <- now ;;
      emit (EvStat dir) ;;;
      made <-
        (if os_Stat_IsNotExist w t dir then
           t' <- now ;;
           let ok := os_MkdirAll w t' dir in
           emit (EvMkdirAll dir ok) ;;;
           ret ok
         else ret true) ;;
      if made then
        match index parts (len - 1) with
        | None => panic "index out of range"
        | Some last =>
            let name := path.Join [dir; last] in
            t'' <- now ;;
            let ok := os_Create w t'' name in
            emit (EvCreate name ok) ;;;
            ret (name, if ok then None else Some (ErrCreate name))
        end
      else ret (EmptyString, Some (ErrMkdirAll dir))
  end.

(** [download]: the bytes written and the error. *)
Definition download (url : URL) : M (Z * option error) :=
  emit (EvDownloading url) ;;;
  response <- request url ;;
  match response with
  | None => emit (EvFatalf url (ErrDo url)) ;;; exit 1
  | Some body =>
      f <- createFile (Path url) ;;
      match f with
      | (_, Some err) => ret (0%Z, Some (ErrDownload err))
      | (file, None) =>
          t <- now ;;
          let '(n, ok) := io_Copy w t file body in
          emit (EvCopy file n ok) ;;;
          ret (n, if ok then None else Some (ErrCopy file))
      end
  end.

(** The loop of the goroutine of [getTifUrls], the same in both files. *)
Definition getTifUrls_sends (pageURL : URL) (page : string) : list chan_op :=
  map (fun m1 => Send (set_Path pageURL (path.Join [Path pageURL; m1])))
      (tif_group1 page).

(** The loop of the goroutine of [parseURLs], the same in both files: the
    templates in order, the matches of each in order; a template that does
    not compile panics in [MustCompile]. *)
Fixpoint parseURLs_templates (pageURL : URL) (stringPageBody : string)
    (tpls : list string) : list chan_op * bool :=
  match tpls with
  | [] => ([], true)
  | tpl :: rest =>
      let regxStr := href_open ++ "(" ++ tpl ++ ")\/" ++ dquote in
      match regexp_group1 w regxStr stringPageBody with
      | None => ([GoPanic "regexp: Compile"], false)
      | Some matches =>
          let '(ops, ok) := parseURLs_templates pageURL stringPageBody rest in
          ((map (fun m1 =>
                   Send (set_Path pageURL
                           (path.Join [Path pageURL; m1] ++ "/")))
                matches ++ ops)%list, ok)
      end
  end.

Definition parseURLs_sends (pageURL : URL) (pageBody : string)
    (pageRanges : list string) : list chan_op * bool :=
  parseURLs_templates pageURL pageBody (buildLinkTemplates pageRanges).

End Program.

(** *** [src/main.go] *)

Module Plain.
Section Handle.

Variable w : World.
Variable config : Config.

Definition getTifUrls (pageURL : URL) (page : string) : list chan_op :=
  (getTifUrls_sends pageURL page ++ [Close])%list.

Definition parseURLs (pageURL : URL) (pageBody : string)
    (pageRanges : list string) : list chan_op :=
  let '(ops, ok) := parseURLs_sends w pageURL pageBody pageRanges in
  if ok then (ops ++ [Close])%list else ops.

(** The body of the inner loop of [handle]: one file. *)
Definition handle_file (fileUrl : URL) : M (option (option error)) :=
  d <- download w config fileUrl ;;
  match d with
  | (_, Some err) => emit (EvLogDownload fileUrl err) ;;; ret None
  | (_, None) => ret None
  end.

(** The body of the outer loop of [handle]: one sub-page. *)
Definition handle_page (u : URL) : M (option (option error)) :=
  r <- getHTML w u ;;
  match r with
  | (_, Some err) => emit (EvLogPage u err) ;;; ret None
  | (html, None) => range (getTifUrls u html) handle_file
  end.

Definition handle (params : PageParam) : M (option error) :=
  match url_Parse w (Url params) with
  | None => panic "invalid memory address or nil pointer dereference"
  | Some baseURL =>
      r <- getHTML w baseURL ;;
      match r with
      | (_, Some err) => ret (Some (ErrGetHTML err))
      | (html, None) =>
          looped <-
            range (parseURLs baseURL html (PageRanges params)) handle_page ;;
          match looped with
          | Some v => ret v
          | None => ret None
          end
      end
  end.

End Handle.
End Plain.

(** *** [src/unnamed/part_000] *)

Module Cancellable.
Section Handle.

Variable w : World.
Variable config : Config.

(** The goroutine sends and returns: the channel is left open. *)
Definition getTifUrls (pageURL : URL) (page : string) : list chan_op :=
  getTifUrls_sends pageURL page.

Definition parseURLs (pageURL : URL) (pageBody : string)
    (pageRanges : list string) : list chan_op :=
  fst (parseURLs_sends w pageURL pageBody pageRanges).

(** [select { case <-terminate: ... default: }]: what the world answers
    at this index of the Job. *)
Definition poll : M bool :=
  t <- now ;;
  let closed := terminate_closed w t in
  emit (EvPoll closed) ;;;
  ret closed.

(** The body of the inner loop of [handle]: the poll, then one file. *)
Definition handle_file (fileUrl : URL) : M (option (option error)) :=
  closed <- poll ;;
  if closed : bool then
    emit (EvPrintln "downloading is terminated") ;;;
    ret (Some None)
  else
    d <- download w config fileUrl ;;
    match d with
    | (_, Some err) => emit (EvLogDownload fileUrl err) ;;; ret None
    | (_, None) => ret None
    end.

(** The body of the outer loop of [handle]: the poll, then one sub-page. *)
Definition handle_page (pageUrl : URL) : M (option (option error)) :=
  closed <- poll ;;
  if closed : bool then
    emit (EvPrintln "handle is terminated") ;;;
    ret (Some None)
  else
    r <- getHTML w pageUrl ;;
    match r with
    | (_, Some err) => emit (EvLogPage pageUrl err) ;;; ret None
    | (html, None) => range (getTifUrls pageUrl html) handle_file
    end.

Definition handle (params : PageParam) : M (option error) :=
  match url_Parse w (Url params) with
  | None => panic "invalid memory address or nil pointer dereference"
  | Some baseURL =>
      r <- getHTML w baseURL ;;
      match r with
      | (_, Some err) => ret (Some (ErrGetHTML err))
      | (html, None) =>
          looped <-
            range (parseURLs baseURL html (PageRanges params)) handle_page ;;
          match looped with
          | Some v => ret v
          | None => ret None
          end
      end
  end.

End Handle.
End Cancellable.

(** ** Jobs and the process *)

(** The goroutine that [main] (or [run]) starts for one page, from time 0:
    [handle], then the line that reports its error. *)
Definition job (handle : PageParam -> M (option error)) (pageParam : PageParam)
  : list event * result unit :=
  (err <- handle pageParam ;;
   match err with
   | Some e => emit (EvHandlingFailed (Name pageParam) e)
   | None => ret tt
   end) 0.

(** How the process ends, given how each goroutine would end if the others
    let it: a panic or an exit in one of them ends the process, a blocked one
    keeps [wg.Wait] from returning. *)
Inductive process_end : Type :=
| ProcessDone
| ProcessCrashed
| ProcessWaits.

Definition crashes {A} (r : result A) : bool :=
  match r with
  | Panic _ | Exit _ => true
  | _ => false
  end.

Definition blocks {A} (r : result A) : bool :=
  match r with
  | Block => true
  | _ => false
  end.

Definition run (handle : PageParam -> M (option error)) (config : Config)
  : list (list event * result unit) :=
  map (job handle) (Pages config).

Definition process (jobs : list (list event * result unit)) : process_end :=
  if existsb (fun j => crashes (snd j)) jobs then ProcessCrashed
  else if existsb (fun j => blocks (snd j)) jobs then ProcessWaits
  else ProcessDone.

(** ** Auxiliary definitions for the properties *)

(** One part prefixed, and one turn of the inner loop of
    [buildLinkTemplates]. *)
Definition prefixed (part : string) : string := "tileSG-" ++ part.

Definition write (tplBuilder part : string) : string :=
  strings.Builder_WriteString
    (strings.Builder_WriteString
       (if Nat.ltb 0 (strings.Builder_Len tplBuilder)
        then strings.Builder_WriteString tplBuilder "|"
        else tplBuilder)
       "tileSG-")
    part.

(** A path element that [path.Clean] keeps as it is. *)
Definition plain (e : string) : Prop := e <> "" /\ e <> "." /\ e <> "..".

(** What [createFile] does once the directory and the file name are
    known. *)
Definition createFile_in (w : World) (dir name : string) (t : nat)
  : list event * result (string * option error) :=
  if os_Stat_IsNotExist w t dir then
    if os_MkdirAll w (t + 1) dir then
      let ok := os_Create w (t + 2) name in
      ([EvStat dir; EvMkdirAll dir true; EvCreate name ok],
       Ret (name, if ok then None else Some (ErrCreate name)))
    else
      ([EvStat dir; EvMkdirAll dir false],
       Ret (EmptyString, Some (ErrMkdirAll dir)))
  else
    let ok := os_Create w (t + 1) name in
    ([EvStat dir; EvCreate name ok],
     Ret (name, if ok then None else Some (ErrCreate name))).

(** Times are sums of ticks: bring them to the form [t + n]. *)
Ltac tidy_time :=
  rewrite ?Nat.add_0_r, <- ?Nat.add_assoc; cbn [Nat.add].

(** ** A small archive

    A world to run the program in: one host with a root page, two sub-pages
    and three tile files.  Its regexp engine knows the patterns of
    [parseURLs] whose alternatives are plain text (letters, digits, dashes),
    which Go matches leftmost, the alternatives tried in order. *)

Definition lit_alternatives (re : string) : option (list string) :=
  match strip_prefix (href_open ++ "(") re with
  | None => None
  | Some r =>
      let n := String.length r in
      if String.eqb (substring (n - 4) 4 r) (")\/" ++ dquote)
      then Some (strings.Split "|" (substring 0 (n - 4) r))
      else None
  end.

Fixpoint lit_first (alts : list string) (r : string) : option string :=
  match alts with
  | [] => None
  | a :: rest =>
      match strip_prefix (a ++ "/" ++ dquote) r with
      | Some _ => Some a
      | None => lit_first rest r
      end
  end.

Fixpoint lit_find_all (alts : list string) (skip : nat) (s : string)
  : list string :=
  match s with
  | EmptyString => []
  | String _ s' =>
      match skip with
      | S k => lit_find_all alts k s'
      | O =>
          match strip_prefix href_open s with
          | None => lit_find_all alts 0 s'
          | Some r =>
              match lit_first alts r with
              | Some a =>
                  a :: lit_find_all alts
                         (String.length href_open + String.length a + 1) s'
              | None => lit_find_all alts 0 s'
              end
          end
      end
  end.

Definition lit_regexp (re s : string) : option (list string) :=
  match lit_alternatives re with
  | Some alts => Some (lit_find_all alts 0 s)
  | None => None
  end.

Definition link (target text : string) : string :=
  "<a " ++ href_open ++ target ++ dquote ++ ">" ++ text ++ "</a>".

Definition nl : string := String newline EmptyString.

Definition archive_root : URL :=
  {| Scheme := "http"; Opaque := ""; Host := "files.example";
     Path := "/archive/"; RawPath := ""; RawQuery := ""; Fragment := "" |}.

Definition archive_page1 : URL := set_Path archive_root "/archive/tileSG-1/".
Definition archive_page2 : URL := set_Path archive_root "/archive/tileSG-2/".
Definition archive_tile_a : URL :=
  set_Path archive_root "/archive/tileSG-2/a.tif".
Definition archive_tile_b : URL :=
  set_Path archive_root "/archive/tileSG-2/b.tif".

Definition archive_pages : list (string * string) :=
  [ ("/archive/",
     link "tileSG-1/" "1" ++ nl ++ link "tileSG-2/" "2");
    ("/archive/tileSG-1/",
     link "image1.tif" "image" ++ link "notes.txt" "notes");
    ("/archive/tileSG-2/",
     link "a.tif" "a" ++ nl ++ link "b.tif" "b");
    ("/archive/tileSG-1/image1.tif", "II*1");
    ("/archive/tileSG-2/a.tif", "II*a");
    ("/archive/tileSG-2/b.tif", "II*b") ].

Fixpoint lookup (k : string) (table : list (string * string)) : option string :=
  match table with
  | [] => None
  | (k', v) :: rest => if String.eqb k k' then Some v else lookup k rest
  end.

(** The archive with the paths in [down] unreachable and the [terminate]
    channel closed from time [cancel] on.  [url.Parse] answers for the two
    strings the examples use: the root URL parses, a lone colon does not
    (missing protocol scheme). *)
Definition archive (down : list string) (cancel : option nat) : World :=
  {| url_Parse := fun s =>
       if String.eqb s "http://files.example/archive/"
       then Some archive_root else None;
     regexp_group1 := lit_regexp;
     http_Do := fun _ u =>
       if existsb (String.eqb (Path u)) down then None
       else option_map (fun d => mkBody d false) (lookup (Path u) archive_pages);
     os_Stat_IsNotExist := fun _ _ => true;
     os_MkdirAll := fun _ _ => true;
     os_Create := fun _ _ => true;
     io_Copy := fun _ _ b => (Z.of_nat (String.length (data b)), true);
     terminate_closed := fun t =>
       match cancel with
       | Some c => Nat.leb c t
       | None => false
       end |}.

Definition tiles : PageParam :=
  {| Name := "tiles"; Url := "http://files.example/archive/";
     PageRanges := ["1|2"] |}.

Definition broken : PageParam :=
  {| Name := "broken"; Url := ":"; PageRanges := ["1"] |}.

Definition out_config (pages : list PageParam) : Config :=
  {| TargetDir := "/out"; Pages := pages |}.

(** Whether a string holds the line feed. *)
Fixpoint has_newline (s : string) : bool :=
  match s with
  | EmptyString => false
  | String c r => Ascii.eqb c newline || has_newline r
  end.

(** The URL that the discoverers build from a page URL and a path. *)
Definition same_origin (root u : URL) : Prop :=
  Scheme u = Scheme root /\ Host u = Host root
  /\ Opaque u = Opaque root /\ RawPath u = RawPath root
  /\ RawQuery u = RawQuery root /\ Fragment u = Fragment root.

(** ** A monitor for the cancellation protocol

    The monitor reads the events of a Job of [src/unnamed/part_000] in
    order.  It accepts a request ([EvDo]) only as the first event (the root
    page) or right after a poll that found the token open, with at most the
    line that announces a download in between, and only while the token is
    still open; after a poll that found the token closed it accepts one
    printed line and then nothing. *)
Inductive phase : Type :=
| Start        (* nothing done yet *)
| Idle         (* between polls *)
| Polled       (* the last event is a poll that found the token open *)
| Announced    (* a poll that found the token open, then Downlading *)
| Cancelled    (* the last event is a poll that found the token closed *)
| Stopped.     (* the line after that poll is printed *)

Definition watch (closed : nat -> bool) (s : phase) (t : nat) (e : event)
  : option phase :=
  match s, e with
  | Start, EvDo _ _ => Some Idle
  | Idle, EvPoll b =>
      if Bool.eqb b (closed t)
      then Some (if b then Cancelled else Polled)
      else None
  | Idle, (EvReadAll _ _ | EvStat _ | EvMkdirAll _ _ | EvCreate _ _
          | EvCopy _ _ _ | EvLogPage _ _ | EvLogDownload _ _ | EvFatalf _ _) =>
      Some Idle
  | Polled, EvDo _ _ => if closed t then None else Some Idle
  | Polled, EvDownloading _ => if closed t then None else Some Announced
  | Announced, EvDo _ _ => if closed t then None else Some Idle
  | Cancelled, EvPrintln _ => Some Stopped
  | _, _ => None
  end.

Fixpoint watch_all (closed : nat -> bool) (s : phase) (t : nat)
    (es : list event) : option phase :=
  match es with
  | [] => Some s
  | e :: rest =>
      match watch closed s t e with
      | Some s' => watch_all closed s' (t + tick e) rest
      | None => None
      end
  end.

(** The events that follow a request inside [getHTML] and [download], and
    the log lines. *)
Definition quiet (e : event) : bool :=
  match e with
  | EvReadAll _ _ | EvStat _ | EvMkdirAll _ _ | EvCreate _ _
  | EvCopy _ _ _ | EvLogPage _ _ | EvLogDownload _ _ | EvFatalf _ _ => true
  | _ => false
  end.

(** How a loop body may leave the monitor: stopped, having returned nil
    from [handle], or idle, not having returned from [handle]. *)
Definition left_in (r : result (option (option error))) (s : phase) : Prop :=
  (s = Stopped /\ r = Ret (Some None))
  \/ (s = Idle /\ forall v, r <> Ret (Some v)).

(** ** Further definitions for the properties *)

(** A part without the token that [buildLinkTemplates] puts before it, and
    a template read back as a page-range filter. *)
Definition unprefix (part : string) : string :=
  match strip_prefix "tileSG-" part with
  | Some r => r
  | None => part
  end.

Definition template_filter (tpl : string) : string :=
  strings.Join (map unprefix (strings.Split "|" tpl)) "|".

(** The pattern that [parseURLs] compiles for a template ([regxStr]), its
    matches in a page, and whether it compiles. *)
Definition template_pattern (tpl : string) : string :=
  href_open ++ "(" ++ tpl ++ ")\/" ++ dquote.

Definition template_matches (w : World) (body tpl : string) : list string :=
  match regexp_group1 w (template_pattern tpl) body with
  | Some ms => ms
  | None => []
  end.

Definition compiles (w : World) (body tpl : string) : bool :=
  match regexp_group1 w (template_pattern tpl) body with
  | Some _ => true
  | None => false
  end.

(** The URL that [parseURLs] sends for a match. *)
Definition child (pageURL : URL) (m1 : string) : URL :=
  set_Path pageURL (path.Join [Path pageURL; m1] ++ "/").

(** Whether a producer ends its sends by closing the channel or by a
    panic, rather than by returning with the channel open. *)
Fixpoint ends (ops : list chan_op) : bool :=
  match ops with
  | [] => false
  | Send _ :: rest => ends rest
  | Close :: _ => true
  | GoPanic _ :: _ => true
  end.

(** A world whose file system refuses to make directories. *)
Definition read_only (w : World) : World :=
  {| url_Parse := url_Parse w;
     regexp_group1 := regexp_group1 w;
     http_Do := http_Do w;
     os_Stat_IsNotExist := os_Stat_IsNotExist w;
     os_MkdirAll := fun _ _ => false;
     os_Create := os_Create w;
     io_Copy := io_Copy w;
     terminate_closed := terminate_closed w |}.

(** A world whose regexp engine rejects the pattern of the template
    tileSG-( , as Go does (missing closing parenthesis). *)
Definition picky (w : World) : World :=
  {| url_Parse := url_Parse w;
     regexp_group1 := fun re s =>
       if String.eqb re (template_pattern "tileSG-(") then None
       else regexp_group1 w re s;
     http_Do := http_Do w;
     os_Stat_IsNotExist := os_Stat_IsNotExist w;
     os_MkdirAll := os_MkdirAll w;
     os_Create := os_Create w;
     io_Copy := io_Copy w;
     terminate_closed := terminate_closed w |}.

(** The elements that [path.Clean] keeps of a rooted path, in order. *)
Definition rooted_elems (p : string) : list string :=
  rev (snd (fold_left (path.clean_step true) (strings.Split "/" p) (0, []))).

(** A path element that is plain and holds no slash. *)
Definition segment (e : string) : Prop :=
  plain e /\ strings.Split "/" e = [e].

(** ** The token in real time

    The finest clock a Job can tell is the count of its own events: the
    token may be closed by [main] between any two of them.  [token i] is the
    state of the [terminate] channel when the Job makes its event number
    [i]. *)

(** The token closed from the moment [A] on. *)
Definition activated_at (A : nat) : nat -> bool := fun i => Nat.leb A i.

(** Every poll of the trace, numbered from [i], reports the token of its
    moment. *)
Fixpoint observes (token : nat -> bool) (i : nat) (trace : list event)
  : bool :=
  match trace with
  | [] => true
  | EvPoll b :: rest => Bool.eqb b (token i) && observes token (S i) rest
  | _ :: rest => observes token (S i) rest
  end.

(** The cancellation property as the specification words it: no request
    but the first (the root page) starts while the token is closed. *)
Definition no_transfer_once_activated (token : nat -> bool)
    (trace : list event) : Prop :=
  forall pre u ok post,
    trace = (pre ++ EvDo u ok :: post)%list -> pre <> [] ->
    token (List.length pre) = false.

(** Events that start nothing: all but the requests and the lines that
    announce a download. *)
Definition passive (e : event) : bool :=
  match e with
  | EvDo _ _ | EvDownloading _ => false
  | _ => true
  end.

(** Every download that the events announce is there with all its events,
    and every request is that of an announced download or that of a whole
    [getHTML]. *)
Definition runs (w : World) (config : Config) (t : nat) (es : list event)
  : Prop :=
  (forall pre f post,
      es = (pre ++ EvDownloading f :: post)%list ->
      exists post',
        EvDownloading f :: post
        = (fst (download w config f (t + elapsed pre)) ++ post')%list)
  /\ (forall pre u ok post,
        es = (pre ++ EvDo u ok :: post)%list ->
        (exists pre', pre = (pre' ++ [EvDownloading u])%list)
        \/ exists post',
             EvDo u ok :: post
             = (fst (getHTML w u (t + elapsed pre)) ++ post')%list).

(** * Properties *)

(** ** Strings *)

Lemma append_assoc (a b c : string) : (a ++ b) ++ c = a ++ (b ++ c).
Proof. induction a as [|x a IH]; simpl; [reflexivity | now rewrite IH]. Qed.

Lemma append_nil_r (a : string) : a ++ "" = a.
Proof. induction a as [|x a IH]; simpl; [reflexivity | now rewrite IH]. Qed.

Lemma length_append (a b : string) :
  String.length (a ++ b) = String.length a + String.length b.
Proof. induction a as [|x a IH]; simpl; [reflexivity | now rewrite IH]. Qed.

Lemma Split_not_nil (sep : ascii) (s : string) : strings.Split sep s <> [].
Proof.
  destruct s as [|c r]; simpl; [discriminate|].
  destruct (Ascii.eqb c sep); [discriminate|].
  destruct (strings.Split sep r); discriminate.
Qed.

(** Joining the fields of a split with the separator gives the string back:
    the fields are the parts that the separator delimits. *)
Lemma Join_Split (sep : ascii) (s : string) :
  strings.Join (strings.Split sep s) (String sep "") = s.
Proof.
  unfold strings.Join.
  induction s as [|c r IH]; simpl; [reflexivity|].
  destruct (Ascii.eqb_spec c sep) as [->|Hne].
  - pose proof (Split_not_nil sep r) as Hnn.
    simpl. destruct (strings.Split sep r) as [|f fs]; [contradiction|].
    simpl in *. now rewrite IH.
  - pose proof (Split_not_nil sep r) as Hnn.
    destruct (strings.Split sep r) as [|f fs]; [contradiction|].
    simpl in *. destruct fs as [|g gs]; simpl in *; now rewrite <- IH.
Qed.

(** No field of a split holds the separator: splitting a field again
    gives the field. *)
Lemma Split_fields_whole (sep : ascii) (s : string) :
  Forall (fun f => strings.Split sep f = [f]) (strings.Split sep s).
Proof.
  induction s as [|c r IH]; simpl.
  - repeat constructor.
  - destruct (Ascii.eqb c sep) eqn:C.
    + constructor; [reflexivity | exact IH].
    + destruct (strings.Split sep r) as [|f fs].
      * constructor; [|constructor]. simpl. now rewrite C.
      * inversion IH as [|? ? Hf Hfs]; subst.
        constructor; [|exact Hfs]. simpl. now rewrite C, Hf.
Qed.

Lemma Split_append_sep (sep : ascii) (a b : string) :
  strings.Split sep (a ++ String sep b)
  = (strings.Split sep a ++ strings.Split sep b)%list.
Proof.
  induction a as [|c a IH]; simpl.
  - now rewrite Ascii.eqb_refl.
  - destruct (Ascii.eqb c sep); [now rewrite IH|].
    rewrite IH. pose proof (Split_not_nil sep a) as Hnn.
    destruct (strings.Split sep a) as [|f fs]; [contradiction|reflexivity].
Qed.

Lemma Join_snoc (sep : string) (l : list string) (e : string) :
  l <> [] ->
  strings.Join (l ++ [e]) sep = strings.Join l sep ++ sep ++ e.
Proof.
  unfold strings.Join. induction l as [|x l IH]; intros Hne; [contradiction|].
  destruct l as [|y l].
  - reflexivity.
  - change (x ++ sep ++ String.concat sep ((y :: l) ++ [e])
            = (x ++ sep ++ String.concat sep (y :: l)) ++ sep ++ e).
    rewrite IH by discriminate. now rewrite !append_assoc.
Qed.

(** ** Paths *)

Lemma clean_step_plain (rooted : bool) (dotdot : nat) (out : list string)
    (e : string) :
  plain e -> path.clean_step rooted (dotdot, out) e = (dotdot, e :: out).
Proof.
  intros (H1 & H2 & H3). unfold path.clean_step.
  apply String.eqb_neq in H1, H2, H3. now rewrite H1, H2, H3.
Qed.

(** Appending a plain element to a clean path gives a clean path. *)
Lemma Clean_snoc (X e : string) :
  path.Clean X = X -> X <> "/" -> X <> "." ->
  plain e -> strings.Split "/" e = [e] ->
  path.Clean (X ++ "/" ++ e) = X ++ "/" ++ e.
Proof.
  intros HX Hroot Hdot He Hsplit.
  destruct X as [|c r]; [discriminate HX|].
  unfold path.Clean in *. cbn [append] in *.
  change (String c (r ++ String "/" e)) with (String c r ++ String "/" e).
  rewrite Split_append_sep, Hsplit, fold_left_app.
  destruct (fold_left (path.clean_step (Ascii.eqb c "/"))
                      (strings.Split "/" (String c r)) (0, []))
    as [dotdot out].
  cbn [fold_left]. rewrite clean_step_plain by exact He.
  cbn [rev]. rewrite app_assoc.
  set (elems := (repeat ".." dotdot ++ rev out)%list) in *.
  destruct (Ascii.eqb c "/").
  - destruct elems as [|x xs]; [now contradiction Hroot|].
    rewrite Join_snoc by discriminate.
    rewrite <- HX. reflexivity.
  - destruct elems as [|x xs]; [now contradiction Hdot|].
    rewrite Join_snoc by discriminate.
    cbn [app]. rewrite HX. reflexivity.
Qed.

Lemma Join_two (T s : string) :
  T <> "" -> path.Join [T; s] = path.Clean (T ++ "/" ++ s).
Proof.
  intros HT. unfold path.Join.
  destruct T as [|c T]; [contradiction|].
  cbn -[path.Clean]. now rewrite append_assoc.
Qed.

(** The directory and the file name of [createFile] for a clean target
    directory and plain last three parts. *)
Lemma Join_plain_parts (T d1 d2 f : string) :
  path.Clean T = T -> T <> "/" -> T <> "." ->
  plain d1 -> plain d2 -> plain f ->
  strings.Split "/" d1 = [d1] -> strings.Split "/" d2 = [d2] ->
  strings.Split "/" f = [f] ->
  path.Join [T; d1 ++ "/" ++ d2] = T ++ "/" ++ d1 ++ "/" ++ d2
  /\ path.Join [path.Join [T; d1 ++ "/" ++ d2]; f]
     = T ++ "/" ++ d1 ++ "/" ++ d2 ++ "/" ++ f.
Proof.
  intros HT Hr Hd P1 P2 Pf S1 S2 Sf.
  assert (N : forall a b : string, a ++ "/" ++ b <> "/" /\ a ++ "/" ++ b <> "."
                                   /\ a ++ "/" ++ b <> "" \/ a = "").
  { intros [|x a] b; [now right|left].
    repeat split; destruct a; discriminate. }
  assert (T0 : T <> "") by (intros ->; discriminate HT).
  assert (C1 : path.Clean (T ++ "/" ++ d1) = T ++ "/" ++ d1)
    by now apply Clean_snoc.
  destruct (N T d1) as [(A1 & A2 & A3)|]; [|contradiction].
  assert (C2 : path.Clean ((T ++ "/" ++ d1) ++ "/" ++ d2)
               = (T ++ "/" ++ d1) ++ "/" ++ d2)
    by now apply Clean_snoc.
  destruct (N (T ++ "/" ++ d1) d2) as [(B1 & B2 & B3)|E];
    [|now destruct T].
  assert (D : path.Join [T; d1 ++ "/" ++ d2] = T ++ "/" ++ d1 ++ "/" ++ d2).
  { rewrite Join_two by exact T0.
    rewrite <- (append_assoc T), <- ?append_assoc in *.
    rewrite !append_assoc in *. exact C2. }
  split; [exact D|].
  rewrite D, Join_two.
  - rewrite !append_assoc in *.
    replace (T ++ "/" ++ d1 ++ "/" ++ d2 ++ "/" ++ f)
      with ((T ++ "/" ++ d1 ++ "/" ++ d2) ++ "/" ++ f)
      by now rewrite !append_assoc.
    apply Clean_snoc; auto.
  - now destruct T.
Qed.

(** ** Link Template Builder *)

Lemma write_not_empty (b part : string) :
  Nat.ltb 0 (strings.Builder_Len (write b part)) = true.
Proof.
  apply Nat.ltb_lt. unfold write, strings.Builder_Len, strings.Builder_WriteString.
  rewrite !length_append. simpl. lia.
Qed.

(** The builder after the parts: what it held, a bar if it held something,
    and the prefixed parts joined by bars. *)
Lemma builder_loop (parts : list string) (b : string) :
  parts <> [] ->
  fold_left write parts b =
  (if Nat.ltb 0 (strings.Builder_Len b) then b ++ "|" else b)
  ++ strings.Join (map prefixed parts) "|".
Proof.
  revert b. induction parts as [|x xs IH]; intros b Hne; [contradiction|].
  simpl fold_left. destruct xs as [|y ys].
  - simpl. unfold write, strings.Builder_WriteString, prefixed.
    now rewrite append_assoc.
  - rewrite IH by discriminate. rewrite write_not_empty.
    unfold write, strings.Builder_WriteString, prefixed, strings.Join.
    cbn [map String.concat]. now rewrite !append_assoc.
Qed.

Lemma buildTemplate_spec (p : string) : buildTemplate p = spec_template p.
Proof.
  unfold buildTemplate, spec_template.
  change (fold_left write (strings.Split "|" p) "" =
          strings.Join (map prefixed (strings.Split "|" p)) "|").
  rewrite builder_loop by apply Split_not_nil. reflexivity.
Qed.

Lemma templates_loop (ranges acc : list string) :
  fold_left (fun templates p => (templates ++ [buildTemplate p])%list)
            ranges acc
  = (acc ++ map spec_template ranges)%list.
Proof.
  revert acc. induction ranges as [|p ps IH]; intros acc; simpl.
  - now rewrite app_nil_r.
  - rewrite IH, buildTemplate_spec, <- app_assoc. reflexivity.
Qed.


(** C3.  [buildLinkTemplates] returns, for every sequence of page-range
    filters, a sequence of the same length and order whose entries are the
    inputs with every bar-delimited part prefixed by [tileSG-] and the parts
    rejoined with bars; the parts are those between the bars of the input;
    the empty sequence gives the empty sequence; there is no error result. *)
Theorem buildLinkTemplates_prefixes_every_part (ranges : list string) :
  buildLinkTemplates ranges = map spec_template ranges
  /\ List.length (buildLinkTemplates ranges) = List.length ranges
  /\ (forall i, nth_error (buildLinkTemplates ranges) i
                = option_map spec_template (nth_error ranges i))
  /\ (forall p, strings.Join (strings.Split "|" p) "|" = p)
  /\ buildLinkTemplates [] = [].
Proof.
  assert (E : buildLinkTemplates ranges = map spec_template ranges).
  { unfold buildLinkTemplates. now rewrite templates_loop. }
  repeat split.
  - exact E.
  - rewrite E. apply length_map.
  - intros i. rewrite E. apply nth_error_map.
  - intros p. apply Join_Split.
Qed.

(** ** Target File Path ([createFile]) *)

Lemma slice_last_three {A} (pre : list A) (d1 d2 f : A) :
  let parts := (pre ++ [d1; d2; f])%list in
  let len := Z.of_nat (List.length parts) in
  slice parts (len - 3) (len - 1) = Some [d1; d2]
  /\ index parts (len - 1) = Some f.
Proof.
  cbv zeta.
  assert (L : List.length (pre ++ [d1; d2; f]) = List.length pre + 3)
    by (rewrite length_app; reflexivity).
  unfold slice, index. rewrite L.
  replace (Z.of_nat (List.length pre + 3) - 3)%Z
    with (Z.of_nat (List.length pre)) by lia.
  replace (Z.of_nat (List.length pre + 3) - 1)%Z
    with (Z.of_nat (List.length pre + 2)) by lia.
  split.
  - destruct (_ && _ && _) eqn:C.
    + rewrite Nat2Z.id.
      replace (Z.to_nat (Z.of_nat (List.length pre + 2)
                         - Z.of_nat (List.length pre)))
        with 2 by lia.
      rewrite skipn_app, skipn_all, Nat.sub_diag. reflexivity.
    + rewrite !andb_false_iff, !Z.leb_gt in C. lia.
  - destruct (0 <=? _)%Z eqn:C; [|rewrite Z.leb_gt in C; lia].
    rewrite Nat2Z.id, nth_error_app2 by lia.
    replace (List.length pre + 2 - List.length pre) with 2 by lia.
    reflexivity.
Qed.

(** A list of at least three elements ends in three elements. *)
Lemma last_three {A} (l : list A) :
  3 <= List.length l -> exists pre d1 d2 f, l = (pre ++ [d1; d2; f])%list.
Proof.
  intros H.
  exists (firstn (List.length l - 3) l).
  pose proof (firstn_skipn (List.length l - 3) l) as E.
  assert (L : List.length (skipn (List.length l - 3) l) = 3)
    by (rewrite length_skipn; lia).
  destruct (skipn (List.length l - 3) l) as [|a [|b [|c [|? ?]]]];
    simpl in L; try lia.
  exists a, b, c. now rewrite E.
Qed.

Lemma slice_short {A} (parts : list A) :
  List.length parts < 3 ->
  slice parts (Z.of_nat (List.length parts) - 3)
              (Z.of_nat (List.length parts) - 1) = None.
Proof.
  intros H. unfold slice.
  replace (0 <=? Z.of_nat (List.length parts) - 3)%Z with false
    by (symmetry; apply Z.leb_gt; lia).
  reflexivity.
Qed.

Section CreateFile.

Variable w : World.
Variable config : Config.

Lemma createFile_three (urlPath : string) (pre : list string)
    (d1 d2 f : string) (t : nat) :
  strings.Split "/" urlPath = (pre ++ [d1; d2; f])%list ->
  createFile w config urlPath t =
  createFile_in w (path.Join [TargetDir config; d1 ++ "/" ++ d2])
                (path.Join [path.Join [TargetDir config; d1 ++ "/" ++ d2]; f])
                t.
Proof.
  intros E. unfold createFile. rewrite E.
  destruct (slice_last_three pre d1 d2 f) as [-> ->].
  unfold createFile_in, bind, now, emit, ret. cbn -[path.Join].
  destruct (os_Stat_IsNotExist w t _); cbn -[path.Join]; tidy_time.
  - destruct (os_MkdirAll w (t + 1) _); cbn -[path.Join]; tidy_time;
      reflexivity.
  - reflexivity.
Qed.

Lemma createFile_short (urlPath : string) (t : nat) :
  List.length (strings.Split "/" urlPath) < 3 ->
  createFile w config urlPath t = ([], Panic "slice bounds out of range").
Proof.
  intros H. unfold createFile. now rewrite slice_short.
Qed.

Lemma createFile_in_returns (dir name : string) (t : nat) :
  exists r, snd (createFile_in w dir name t) = Ret r.
Proof.
  unfold createFile_in.
  destruct (os_Stat_IsNotExist w t dir); [destruct (os_MkdirAll w (t + 1) dir)|];
    eexists; reflexivity.
Qed.

End CreateFile.

(** C4.  For a URL path that splits into at least three parts, [createFile]
    derives the directory from the target directory and the two parts
    before the last, and the file name from that directory and the last
    part, whatever the world and the time; it does nothing else than stat
    the directory, make it if absent, and create the file.  For a clean
    target directory and plain parts the file is
    targetDir/part/part/last; for /archive/vol1/p3/image1.tif under /out it
    is /out/vol1/p3/image1.tif. *)
Theorem createFile_target_path (w : World) (config : Config)
    (urlPath : string) (pre : list string) (d1 d2 f : string) (t : nat) :
  strings.Split "/" urlPath = (pre ++ [d1; d2; f])%list ->
  let dir := path.Join [TargetDir config; d1 ++ "/" ++ d2] in
  let name := path.Join [dir; f] in
  createFile w config urlPath t = createFile_in w dir name t
  /\ (path.Clean (TargetDir config) = TargetDir config ->
      TargetDir config <> "/" -> TargetDir config <> "." ->
      plain d1 -> plain d2 -> plain f ->
      dir = TargetDir config ++ "/" ++ d1 ++ "/" ++ d2
      /\ name = TargetDir config ++ "/" ++ d1 ++ "/" ++ d2 ++ "/" ++ f)
  /\ createFile w (out_config []) "/archive/vol1/p3/image1.tif" t
     = createFile_in w "/out/vol1/p3" "/out/vol1/p3/image1.tif" t.
Proof.
  intros E dir name. split; [|split].
  - now apply createFile_three with (pre := pre).
  - intros HT Hr Hd P1 P2 Pf.
    pose proof (Split_fields_whole "/" urlPath) as W.
    rewrite E in W. apply Forall_app in W. destruct W as [_ W].
    inversion W as [|? ? S1 W1]; subst.
    inversion W1 as [|? ? S2 W2]; subst.
    inversion W2 as [|? ? Sf _]; subst.
    now apply Join_plain_parts.
  - now rewrite (createFile_three w (out_config [])
                   "/archive/vol1/p3/image1.tif" [""; "archive"]
                   "vol1" "p3" "image1.tif" t eq_refl).
Qed.

Lemma createFile_target_path_witness :
  strings.Split "/" "/archive/vol1/p3/image1.tif"
  = ([""; "archive"] ++ ["vol1"; "p3"; "image1.tif"])%list
  /\ fst (createFile (archive [] None) (out_config [])
            "/archive/vol1/p3/image1.tif" 0)
     = [EvStat "/out/vol1/p3"; EvMkdirAll "/out/vol1/p3" true;
        EvCreate "/out/vol1/p3/image1.tif" true].
Proof.
  split; [reflexivity|].
  destruct (createFile_target_path (archive [] None) (out_config [])
              "/archive/vol1/p3/image1.tif" [""; "archive"]
              "vol1" "p3" "image1.tif" 0 eq_refl) as (E & _ & _).
  rewrite E. reflexivity.
Defined.

(** C10.  [createFile] panics with a slice index out of range, and returns
    no error value, exactly when the URL path splits on the slash into
    fewer than three parts; with three parts or more it returns.  The path
    a.tif, of one part, is such an input. *)
Theorem createFile_panics_below_three_parts (w : World) (config : Config)
    (urlPath : string) (t : nat) :
  (List.length (strings.Split "/" urlPath) < 3 <->
   snd (createFile w config urlPath t) = Panic "slice bounds out of range")
  /\ (3 <= List.length (strings.Split "/" urlPath) <->
      exists r, snd (createFile w config urlPath t) = Ret r)
  /\ createFile w config "a.tif" t = ([], Panic "slice bounds out of range").
Proof.
  assert (Short : List.length (strings.Split "/" urlPath) < 3 ->
                  snd (createFile w config urlPath t)
                  = Panic "slice bounds out of range")
    by (intros H; now rewrite createFile_short).
  assert (Long : 3 <= List.length (strings.Split "/" urlPath) ->
                 exists r, snd (createFile w config urlPath t) = Ret r).
  { intros H. destruct (last_three _ H) as (pre & d1 & d2 & f & E).
    rewrite (createFile_three w config urlPath pre d1 d2 f t E).
    apply createFile_in_returns. }
  split; [|split].
  - split; [exact Short|]. intros P.
    destruct (Nat.lt_ge_cases (List.length (strings.Split "/" urlPath)) 3)
      as [H|H]; [exact H|].
    destruct (Long H) as [r R]. rewrite R in P. discriminate.
  - split; [exact Long|]. intros [r R].
    destruct (Nat.lt_ge_cases (List.length (strings.Split "/" urlPath)) 3)
      as [H|H]; [|exact H].
    rewrite (Short H) in R. discriminate.
  - apply createFile_short. simpl. lia.
Qed.

(** ** Tile-file Discoverer ([getTifUrls]) *)

Lemma strip_prefix_append (p s : string) : strip_prefix p (p ++ s) = Some s.
Proof.
  induction p as [|c p IH]; simpl; [reflexivity|].
  now rewrite Ascii.eqb_refl.
Qed.

(** When no [.tifQ] follows on the line, the star stops before this one. *)
Lemma star_tif_stops (rest : string) :
  star_tif rest = None -> star_tif (tif_close ++ rest) = Some EmptyString.
Proof.
  intros H. cbn. rewrite H. reflexivity.
Qed.

Lemma star_tif_takes (mid rest : string) :
  has_newline mid = false ->
  star_tif rest = None ->
  star_tif (mid ++ tif_close ++ rest) = Some mid.
Proof.
  intros Hnl Hrest. induction mid as [|c mid IH].
  - now apply star_tif_stops.
  - cbn [has_newline] in Hnl. apply orb_false_iff in Hnl.
    destruct Hnl as [Hc Hmid].
    cbn [append star_tif]. rewrite Hc, (IH Hmid). reflexivity.
Qed.

(** However many [.tifQ] the line holds, the star runs to the last. *)
Lemma star_tif_greedy (mid rest : string) :
  has_newline mid = false ->
  star_tif rest = None ->
  tif_match_here (href_open ++ mid ++ tif_close ++ rest)
  = Some (mid ++ ".tif",
          String.length href_open + String.length mid
          + String.length tif_close).
Proof.
  intros Hnl Hrest. unfold tif_match_here.
  now rewrite strip_prefix_append, star_tif_takes.
Qed.

(** C5 fails on the code, in both files.  The pattern of [getTifUrls] is
    greedy, so two tile links on one line give one match that runs from the
    first href to the end of the second: one file URL is sent, whose path
    holds the markup between the links, where the claim (and a non-greedy
    match) gives the two links.  With the links on two lines the same code
    sends both, as it sends the one tile of the example of the
    specification; [parseURLs], whose pattern has no star, sends each of
    two sub-page links of one line. *)
Theorem getTifUrls_joins_links_of_one_line :
  spec_tif_group1 (link "a.tif" "a" ++ link "b.tif" "b") = ["a.tif"; "b.tif"]
  /\ map Path (sent (Plain.getTifUrls archive_page2
                       (link "a.tif" "a" ++ link "b.tif" "b")))
     = ["/archive/tileSG-2/a.tif" ++ dquote ++ ">a</a><a " ++ href_open
        ++ "b.tif"]
  /\ sent (Cancellable.getTifUrls archive_page2
             (link "a.tif" "a" ++ link "b.tif" "b"))
     = sent (Plain.getTifUrls archive_page2
               (link "a.tif" "a" ++ link "b.tif" "b"))
  /\ map Path (sent (Plain.getTifUrls archive_page2
                       (link "a.tif" "a" ++ nl ++ link "b.tif" "b")))
     = ["/archive/tileSG-2/a.tif"; "/archive/tileSG-2/b.tif"]
  /\ map Path (sent (Plain.getTifUrls archive_page1
                       (link "image1.tif" "image" ++ link "notes.txt" "notes")))
     = ["/archive/tileSG-1/image1.tif"]
  /\ sent (Plain.parseURLs (archive [] None) archive_root
             (link "tileSG-1/" "1" ++ link "tileSG-2/" "2") ["1|2"])
     = [archive_page1; archive_page2].
Proof.
  split; [reflexivity|].
  split; [vm_compute; reflexivity|].
  split; [vm_compute; reflexivity|].
  split; [vm_compute; reflexivity|].
  split; vm_compute; reflexivity.
Qed.

(** ** Discovery stays on the origin of the page *)

Lemma set_Path_same_origin (root : URL) (p : string) :
  same_origin root (set_Path root p).
Proof. repeat split. Qed.

Lemma same_origin_trans (a b c : URL) :
  same_origin a b -> same_origin b c -> same_origin a c.
Proof.
  intros (A1 & A2 & A3 & A4 & A5 & A6) (B1 & B2 & B3 & B4 & B5 & B6).
  repeat split; congruence.
Qed.

Lemma getTifUrls_sends_origin (pageURL : URL) (page : string) (u : URL) :
  In (Send u) (getTifUrls_sends pageURL page) ->
  same_origin pageURL u
  /\ exists m1, In m1 (tif_group1 page)
                /\ Path u = path.Join [Path pageURL; m1].
Proof.
  unfold getTifUrls_sends. intros H. apply in_map_iff in H.
  destruct H as (m1 & E & Hin). inversion E; subst.
  split; [apply set_Path_same_origin|]. now exists m1.
Qed.

Lemma parseURLs_templates_origin (w : World) (pageURL : URL) (body : string)
    (tpls : list string) (u : URL) :
  In (Send u) (fst (parseURLs_templates w pageURL body tpls)) ->
  same_origin pageURL u
  /\ exists m1, Path u = path.Join [Path pageURL; m1] ++ "/".
Proof.
  induction tpls as [|tpl rest IH]; cbn -[path.Join]; [contradiction|].
  destruct (regexp_group1 w _ body) as [matches|].
  - destruct (parseURLs_templates w pageURL body rest) as [ops ok].
    cbn -[path.Join] in *. intros H. apply in_app_or in H.
    destruct H as [H|H]; [|now apply IH].
    apply in_map_iff in H. destruct H as (m1 & E & _). inversion E; subst.
    split; [apply set_Path_same_origin|]. now exists m1.
  - cbn. intros [H|[]]. discriminate.
Qed.

Lemma Plain_parseURLs_in (w : World) (pageURL : URL) (body : string)
    (ranges : list string) (u : URL) :
  In (Send u) (Plain.parseURLs w pageURL body ranges) ->
  In (Send u) (fst (parseURLs_sends w pageURL body ranges)).
Proof.
  unfold Plain.parseURLs.
  destruct (parseURLs_sends w pageURL body ranges) as [ops [|]]; cbn;
    [|trivial].
  intros H. apply in_app_or in H. destruct H as [H|[H|[]]];
    [exact H | discriminate].
Qed.

(** C8.  Every child URL that [parseURLs] sends, and every file URL that
    [getTifUrls] sends for such a child, has the scheme and the host (and the
    query and fragment) of the root URL of the Job; its path is the path of
    the page joined with the matched segment, with a trailing slash for a
    child page.  This holds in both files. *)
Theorem discovered_urls_share_origin (w : World) (root : URL)
    (body : string) (ranges : list string) (child : URL) :
  In (Send child) (Plain.parseURLs w root body ranges)
  \/ In (Send child) (Cancellable.parseURLs w root body ranges) ->
  (Scheme child = Scheme root /\ Host child = Host root
   /\ exists m1, Path child = path.Join [Path root; m1] ++ "/")
  /\ forall (page : string) (file : URL),
       In (Send file) (Plain.getTifUrls child page)
       \/ In (Send file) (Cancellable.getTifUrls child page) ->
       Scheme file = Scheme root /\ Host file = Host root
       /\ exists m1, Path file = path.Join [Path child; m1].
Proof.
  intros H.
  assert (C : same_origin root child
              /\ exists m1, Path child = path.Join [Path root; m1] ++ "/").
  { destruct H as [H|H].
    - apply Plain_parseURLs_in in H.
      now apply parseURLs_templates_origin in H.
    - now apply parseURLs_templates_origin in H. }
  destruct C as [O P]. split.
  - destruct O as (O1 & O2 & _). auto.
  - intros page file F.
    assert (F' : In (Send file) (getTifUrls_sends child page)).
    { destruct F as [F|F]; [|exact F].
      unfold Plain.getTifUrls in F. apply in_app_or in F.
      destruct F as [F|[F|[]]]; [exact F | discriminate]. }
    apply getTifUrls_sends_origin in F'. destruct F' as [O' (m1 & _ & P')].
    destruct (same_origin_trans _ _ _ O O') as (T1 & T2 & _).
    split; [exact T1|]. split; [exact T2|]. now exists m1.
Qed.

Lemma discovered_urls_share_origin_witness :
  In (Send archive_page2)
     (Plain.parseURLs (archive [] None) archive_root
        (link "tileSG-1/" "1" ++ nl ++ link "tileSG-2/" "2") ["1|2"])
  /\ Scheme archive_page2 = "http"
  /\ Host archive_page2 = "files.example".
Proof.
  assert (I : In (Send archive_page2)
                (Plain.parseURLs (archive [] None) archive_root
                   (link "tileSG-1/" "1" ++ nl ++ link "tileSG-2/" "2")
                   ["1|2"]))
    by (vm_compute; auto).
  split; [exact I|].
  destruct (discovered_urls_share_origin (archive [] None) archive_root
              (link "tileSG-1/" "1" ++ nl ++ link "tileSG-2/" "2") ["1|2"]
              archive_page2 (or_introl I))
    as ((S & H & _) & _).
  split; [exact S | exact H].
Defined.

(** ** Loops over channels *)

Lemma elapsed_app (a b : list event) :
  elapsed (a ++ b) = elapsed a + elapsed b.
Proof.
  unfold elapsed. now rewrite map_app, list_sum_app.
Qed.

(** One turn of a loop over a channel. *)
Lemma range_send {R} (u : URL) (rest : list chan_op)
    (body : URL -> M (option R)) (t : nat) :
  range (Send u :: rest) body t =
  match body u t with
  | (es, Ret None) =>
      ((es ++ fst (range rest body (t + elapsed es)))%list,
       snd (range rest body (t + elapsed es)))
  | (es, Ret (Some v)) => (es, Ret (Some v))
  | (es, Panic msg) => (es, Panic msg)
  | (es, Exit code) => (es, Exit code)
  | (es, Block) => (es, Block)
  end.
Proof.
  cbn [range]. unfold bind at 1.
  destruct (body u t) as [es r].
  destruct r as [[v|]|msg|code|]; try reflexivity.
  - unfold ret. now rewrite app_nil_r.
  - now destruct (range rest body (t + elapsed es)).
Qed.

(** ** A failed request in [download] *)

(** [download] does not return the error of a failed request: it calls
    [log.Fatalf], which exits the process. *)
Lemma download_request_fails (w : World) (config : Config) (url : URL)
    (t : nat) :
  http_Do w t url = None ->
  download w config url t
  = ([EvDownloading url; EvDo url false; EvFatalf url (ErrDo url)], Exit 1).
Proof.
  intros H. unfold download, request, bind, now, emit, ret, exit. cbn.
  rewrite !Nat.add_0_r, H. reflexivity.
Qed.

(** C1 fails on the code.  With the tile a.tif of the second sub-page
    unreachable, the Job exits the process at that file in both variants:
    the sibling b.tif of the same sub-page is never attempted, and the
    process is gone for every other Job. *)
Theorem download_fetch_failure_exits_process :
  snd (Plain.handle (archive ["/archive/tileSG-2/a.tif"] None)
         (out_config [tiles]) tiles 0) = Exit 1
  /\ snd (Cancellable.handle
            (archive ["/archive/tileSG-1/image1.tif"] None)
            (out_config [tiles]) tiles 0) = Exit 1
  /\ In (EvFatalf archive_tile_a (ErrDo archive_tile_a))
        (fst (Plain.handle (archive ["/archive/tileSG-2/a.tif"] None)
                (out_config [tiles]) tiles 0))
  /\ ~ In (EvDownloading archive_tile_b)
          (fst (Plain.handle (archive ["/archive/tileSG-2/a.tif"] None)
                  (out_config [tiles]) tiles 0))
  /\ process (run (Plain.handle (archive ["/archive/tileSG-2/a.tif"] None)
                     (out_config [tiles]))
                  (out_config [tiles])) = ProcessCrashed
  /\ In (EvDownloading archive_tile_b)
        (fst (Plain.handle (archive [] None) (out_config [tiles]) tiles 0)).
Proof.
  split; [vm_compute; reflexivity|].
  split; [vm_compute; reflexivity|].
  split; [vm_compute; intuition|].
  split.
  - vm_compute. intros H.
    repeat (destruct H as [H|H]; [discriminate H|]). exact H.
  - split; [vm_compute; reflexivity|]. vm_compute. intuition.
Qed.

(** ** Channels that nobody closes *)

(** A loop over a channel that is never closed does not end normally. *)
Lemma range_open_never_done {R} (ops : list chan_op)
    (body : URL -> M (option R)) (t : nat) :
  ~ In Close ops -> snd (range ops body t) <> Ret None.
Proof.
  revert t. induction ops as [|op ops IH]; intros t Hc; cbn.
  - discriminate.
  - destruct op as [u| |msg].
    + unfold bind. destruct (body u t) as [es r].
      destruct r as [[v|]|msg|code|]; cbn; try discriminate.
      specialize (IH (t + elapsed es)).
      destruct (range ops body (t + elapsed es)) as [es' r'] eqn:E.
      cbn in *. apply IH. intros H. apply Hc. now right.
    + exfalso. apply Hc. now left.
    + discriminate.
Qed.

Lemma getTifUrls_sends_open (pageURL : URL) (page : string) :
  ~ In Close (getTifUrls_sends pageURL page).
Proof.
  unfold getTifUrls_sends. intros H. apply in_map_iff in H.
  destruct H as (? & E & _). discriminate E.
Qed.

Lemma parseURLs_templates_open (w : World) (pageURL : URL) (body : string)
    (tpls : list string) :
  ~ In Close (fst (parseURLs_templates w pageURL body tpls)).
Proof.
  induction tpls as [|tpl rest IH]; cbn -[path.Join]; [tauto|].
  destruct (regexp_group1 w _ body) as [matches|].
  - destruct (parseURLs_templates w pageURL body rest) as [ops ok].
    cbn -[path.Join] in *. intros H. apply in_app_or in H.
    destruct H as [H|H]; [|now apply IH].
    apply in_map_iff in H. destruct H as (? & E & _). discriminate E.
  - cbn. intros [H|[]]. discriminate.
Qed.

(** In [src/main.go] the producer of tile URLs sends the matches and
    closes. *)
Lemma Plain_getTifUrls_closed (pageURL : URL) (page : string) :
  Plain.getTifUrls pageURL page
  = (map Send (sent (Plain.getTifUrls pageURL page)) ++ [Close])%list
  /\ List.length (sent (Plain.getTifUrls pageURL page))
     = List.length (tif_group1 page).
Proof.
  unfold Plain.getTifUrls, getTifUrls_sends.
  induction (tif_group1 page) as [|m l [IH1 IH2]]; [split; reflexivity|].
  cbn -[path.Join]. split; [now rewrite <- IH1 | now rewrite IH2].
Qed.

(** A loop over a channel that is closed after its values, with a body
    that always goes on, ends normally after the last value. *)
Lemma range_closed_drains {R} (us : list URL) (body : URL -> M (option R))
    (t : nat) :
  (forall u t', exists es, body u t' = (es, Ret None)) ->
  snd (range (map Send us ++ [Close]) body t) = Ret None.
Proof.
  intros B. revert t. induction us as [|u us IH]; intros t; [reflexivity|].
  cbn [map app]. rewrite range_send. destruct (B u t) as [es ->].
  cbn [snd]. apply IH.
Qed.

(** In [part_000] neither loop of [handle] ends normally. *)
Lemma Cancellable_loops_never_done (w : World) (config : Config)
    (u : URL) (html : string) (ranges : list string) (t : nat) :
  snd (range (Cancellable.getTifUrls u html)
             (Cancellable.handle_file w config) t) <> Ret None
  /\ snd (range (Cancellable.parseURLs w u html ranges)
                (Cancellable.handle_page w config) t) <> Ret None.
Proof.
  split; apply range_open_never_done.
  - apply getTifUrls_sends_open.
  - apply parseURLs_templates_open.
Qed.

(** C2 fails on [src/unnamed/part_000].  On the archive, with no
    cancellation, the Job of [src/main.go] drains both streams and returns
    nil; the Job of [part_000] receives the only tile of the first sub-page
    and then waits for ever on the channel that [getTifUrls] left open: it
    never fetches the second sub-page, and [run] never returns. *)
Theorem unclosed_channel_blocks_job :
  snd (Plain.handle (archive [] None) (out_config [tiles]) tiles 0) = Ret None
  /\ In (EvDo archive_page2 true)
        (fst (Plain.handle (archive [] None) (out_config [tiles]) tiles 0))
  /\ snd (Cancellable.handle (archive [] None) (out_config [tiles]) tiles 0)
     = Block
  /\ ~ In (EvDo archive_page2 true)
          (fst (Cancellable.handle (archive [] None) (out_config [tiles])
                  tiles 0))
  /\ process (run (Cancellable.handle (archive [] None) (out_config [tiles]))
                  (out_config [tiles])) = ProcessWaits
  /\ snd (Cancellable.handle (archive [] None) (out_config [tiles])
            {| Name := "none"; Url := Url tiles; PageRanges := [] |} 0)
     = Block.
Proof.
  split; [vm_compute; reflexivity|].
  split; [vm_compute; intuition|].
  split; [vm_compute; reflexivity|].
  split.
  - vm_compute. intros H.
    repeat (destruct H as [H|H]; [discriminate H|]). exact H.
  - split; vm_compute; reflexivity.
Qed.

(** ** The root URL and the root page *)

(** A failed fetch of the root page is returned as the error of the Job. *)
Lemma handle_root_fetch_fails (w : World) (config : Config)
    (params : PageParam) (baseURL : URL) (html : string) (err : error) :
  url_Parse w (Url params) = Some baseURL ->
  snd (getHTML w baseURL 0) = Ret (html, Some err) ->
  snd (Plain.handle w config params 0) = Ret (Some (ErrGetHTML err))
  /\ snd (Cancellable.handle w config params 0) = Ret (Some (ErrGetHTML err)).
Proof.
  intros P G. unfold Plain.handle, Cancellable.handle. rewrite P.
  unfold bind at 1 3. destruct (getHTML w baseURL 0) as [es r].
  cbn in G. subst r. cbn. split; reflexivity.
Qed.

(** A root URL that does not parse leaves a nil pointer, and [handle]
    dereferences it. *)
Lemma handle_root_parse_fails (w : World) (config : Config)
    (params : PageParam) :
  url_Parse w (Url params) = None ->
  (exists msg, Plain.handle w config params 0 = ([], Panic msg))
  /\ exists msg, Cancellable.handle w config params 0 = ([], Panic msg).
Proof.
  intros P. unfold Plain.handle, Cancellable.handle. rewrite P.
  split; eexists; reflexivity.
Qed.

(** C6 fails on the code for the URL that does not parse.  The Job whose
    URL is a lone colon panics instead of reporting a failure, and the panic
    ends the process with the sibling Job in it; a Job whose root page
    cannot be fetched does report its failure and leaves the process
    alone. *)
Theorem unparsable_root_url_crashes_process :
  url_Parse (archive [] None) (Url broken) = None
  /\ (exists msg,
        job (Plain.handle (archive [] None) (out_config [broken; tiles]))
            broken = ([], Panic msg))
  /\ (exists msg,
        job (Cancellable.handle (archive [] None) (out_config [broken; tiles]))
            broken = ([], Panic msg))
  /\ process (run (Plain.handle (archive [] None)
                     (out_config [broken; tiles]))
                  (out_config [broken; tiles])) = ProcessCrashed
  /\ process (run (Cancellable.handle (archive [] None)
                     (out_config [broken; tiles]))
                  (out_config [broken; tiles])) = ProcessCrashed
  /\ process (run (Plain.handle (archive [] None) (out_config [tiles]))
                  (out_config [tiles])) = ProcessDone
  /\ (exists e,
        job (Plain.handle (archive ["/archive/"] None) (out_config [tiles]))
            tiles
        = ([EvDo archive_root false; EvHandlingFailed "tiles" e], Ret tt)).
Proof.
  split; [reflexivity|].
  split; [eexists; vm_compute; reflexivity|].
  split; [eexists; vm_compute; reflexivity|].
  split; [vm_compute; reflexivity|].
  split; [vm_compute; reflexivity|].
  split; [vm_compute; reflexivity|].
  eexists; vm_compute; reflexivity.
Qed.

(** ** The shape of [getHTML] and [download] *)

Lemma getHTML_cases (w : World) (u : URL) (t : nat) :
  getHTML w u t =
  match http_Do w t u with
  | None => ([EvDo u false], Ret (EmptyString, Some (ErrRequestPage u (ErrDo u))))
  | Some body =>
      ([EvDo u true; EvReadAll u (negb (read_fails body))],
       Ret (data body,
            if read_fails body then Some (ErrReadAll u) else None))
  end.
Proof.
  unfold getHTML, request, bind, now, emit, ret. cbn. tidy_time.
  destruct (http_Do w t u); reflexivity.
Qed.

Lemma download_cases (w : World) (config : Config) (url : URL) (t : nat) :
  download w config url t =
  match http_Do w t url with
  | None =>
      ([EvDownloading url; EvDo url false; EvFatalf url (ErrDo url)], Exit 1)
  | Some body =>
      let '(es, r) := createFile w config (Path url) (t + 1) in
      match r with
      | Ret (_, Some err) =>
          (EvDownloading url :: EvDo url true :: es,
           Ret (0%Z, Some (ErrDownload err)))
      | Ret (file, None) =>
          let '(n, ok) := io_Copy w (t + 1 + elapsed es) file body in
          ((EvDownloading url :: EvDo url true :: es ++ [EvCopy file n ok])%list,
           Ret (n, if ok then None else Some (ErrCopy file)))
      | Panic msg => (EvDownloading url :: EvDo url true :: es, Panic msg)
      | Exit code => (EvDownloading url :: EvDo url true :: es, Exit code)
      | Block => (EvDownloading url :: EvDo url true :: es, Block)
      end
  end.
Proof.
  unfold download, request, bind, now, emit, ret, exit. cbn. tidy_time.
  destruct (http_Do w t url) as [body|]; [|reflexivity].
  cbn. tidy_time.
  destruct (createFile w config (Path url) (t + 1)) as [es r].
  destruct r as [[file [err|]]|msg|code|]; cbn; try reflexivity.
  - now rewrite app_nil_r.
  - tidy_time.
    replace (t + 1 + elapsed es) with (t + S (elapsed es)) by lia.
    destruct (io_Copy w (t + S (elapsed es)) file body) as [n ok].
    reflexivity.
Qed.

Lemma poll_cases (w : World) (t : nat) :
  Cancellable.poll w t
  = ([EvPoll (terminate_closed w t)], Ret (terminate_closed w t)).
Proof.
  unfold Cancellable.poll, bind, now, emit, ret. cbn. tidy_time. reflexivity.
Qed.

(** ** Sub-page failures *)

Lemma Plain_handle_page_fails (w : World) (config : Config) (u : URL)
    (t : nat) (html : string) (err : error) :
  snd (getHTML w u t) = Ret (html, Some err) ->
  Plain.handle_page w config u t
  = ((fst (getHTML w u t) ++ [EvLogPage u err])%list, Ret None).
Proof.
  intros G. unfold Plain.handle_page, bind at 1.
  destruct (getHTML w u t) as [es r]. cbn in G. subst r. reflexivity.
Qed.

Lemma Cancellable_handle_page_fails (w : World) (config : Config) (u : URL)
    (t : nat) (html : string) (err : error) :
  terminate_closed w t = false ->
  snd (getHTML w u t) = Ret (html, Some err) ->
  Cancellable.handle_page w config u t
  = ((EvPoll false :: fst (getHTML w u t) ++ [EvLogPage u err])%list,
     Ret None).
Proof.
  intros Open G. unfold Cancellable.handle_page, bind at 1.
  rewrite poll_cases, Open. cbn [elapsed map tick list_sum]. tidy_time.
  unfold bind at 1.
  destruct (getHTML w u t) as [es r]. cbn in G. subst r. reflexivity.
Qed.

Theorem subpage_fetch_failure_is_skipped (w : World) (config : Config)
    (u : URL) (rest : list chan_op) (t : nat) (html : string) (err : error) :
  snd (getHTML w u t) = Ret (html, Some err) ->
  let es := fst (getHTML w u t) in
  let t' := t + elapsed es in
  Forall (fun e => exists ok, e = EvDo u ok \/ e = EvReadAll u ok) es
  /\ range (Send u :: rest) (Plain.handle_page w config) t
     = ((es ++ EvLogPage u err
            :: fst (range rest (Plain.handle_page w config) t'))%list,
        snd (range rest (Plain.handle_page w config) t'))
  /\ (terminate_closed w t = false ->
      range (Send u :: rest) (Cancellable.handle_page w config) t
      = ((EvPoll false :: es ++ EvLogPage u err
            :: fst (range rest (Cancellable.handle_page w config) t'))%list,
         snd (range rest (Cancellable.handle_page w config) t'))).
Proof.
  intros G es t'. split; [|split].
  - subst es. rewrite getHTML_cases.
    destruct (http_Do w t u); repeat constructor; eauto.
  - rewrite range_send, (Plain_handle_page_fails w config u t html err G).
    subst es t'. rewrite elapsed_app. cbn [elapsed map tick list_sum].
    tidy_time. now rewrite <- app_assoc.
  - intros Open.
    rewrite range_send,
      (Cancellable_handle_page_fails w config u t html err Open G).
    subst es t'.
    change (EvPoll false :: fst (getHTML w u t) ++ [EvLogPage u err])%list
      with ([EvPoll false] ++ fst (getHTML w u t) ++ [EvLogPage u err])%list.
    rewrite !elapsed_app. cbn [elapsed map tick list_sum].
    tidy_time. cbn [app]. now rewrite <- app_assoc.
Qed.

Lemma subpage_fetch_failure_is_skipped_witness :
  snd (getHTML (archive ["/archive/tileSG-1/"] None) archive_page1 2)
  = Ret (EmptyString, Some (ErrRequestPage archive_page1 (ErrDo archive_page1)))
  /\ terminate_closed (archive ["/archive/tileSG-1/"] None) 2 = false
  /\ range [Send archive_page1; Send archive_page2; Close]
           (Plain.handle_page (archive ["/archive/tileSG-1/"] None)
              (out_config [tiles])) 2
     = ((EvDo archive_page1 false
           :: EvLogPage archive_page1
                (ErrRequestPage archive_page1 (ErrDo archive_page1))
           :: fst (range [Send archive_page2; Close]
                     (Plain.handle_page (archive ["/archive/tileSG-1/"] None)
                        (out_config [tiles])) 3))%list,
        Ret None)
  /\ In (EvDo archive_page2 true)
        (fst (range [Send archive_page1; Send archive_page2]
                (Cancellable.handle_page (archive ["/archive/tileSG-1/"] None)
                   (out_config [tiles])) 2)).
Proof.
  split; [reflexivity|]. split; [reflexivity|].
  destruct (subpage_fetch_failure_is_skipped
              (archive ["/archive/tileSG-1/"] None) (out_config [tiles])
              archive_page1 [Send archive_page2; Close]
              2 EmptyString _ eq_refl) as (_ & P & _).
  destruct (subpage_fetch_failure_is_skipped
              (archive ["/archive/tileSG-1/"] None) (out_config [tiles])
              archive_page1 [Send archive_page2]
              2 EmptyString _ eq_refl) as (_ & _ & C).
  split.
  - rewrite P. vm_compute. reflexivity.
  - rewrite (C eq_refl). vm_compute. intuition.
Defined.

(** ** Cancellation *)

Section Monitor.

Variable closed : nat -> bool.

Lemma watch_all_app (s : phase) (t : nat) (a b : list event) :
  watch_all closed s t (a ++ b) =
  match watch_all closed s t a with
  | Some s' => watch_all closed s' (t + elapsed a) b
  | None => None
  end.
Proof.
  revert s t. induction a as [|e a IH]; intros s t; cbn.
  - now rewrite Nat.add_0_r.
  - destruct (watch closed s t e) as [s'|]; [|reflexivity].
    rewrite IH. change (list_sum (map tick a)) with (elapsed a).
    now rewrite Nat.add_assoc.
Qed.

(** What the monitor saw before, at and after an event of the trace. *)
Lemma watch_all_at (s sf : phase) (t : nat) (pre post : list event)
    (e : event) :
  watch_all closed s t (pre ++ e :: post) = Some sf ->
  exists s1 s2,
    watch_all closed s t pre = Some s1
    /\ watch closed s1 (t + elapsed pre) e = Some s2
    /\ watch_all closed s2 (t + elapsed pre + tick e) post = Some sf.
Proof.
  rewrite watch_all_app.
  destruct (watch_all closed s t pre) as [s1|]; [|discriminate].
  cbn. destruct (watch closed s1 (t + elapsed pre) e) as [s2|] eqn:W;
    [|discriminate].
  intros H. now exists s1, s2.
Qed.

Lemma watch_all_quiet (t : nat) (es : list event) :
  forallb quiet es = true -> watch_all closed Idle t es = Some Idle.
Proof.
  revert t. induction es as [|e es IH]; intros t H; [reflexivity|].
  cbn in H. apply andb_true_iff in H. destruct H as [Q H].
  cbn [watch_all]. destruct e; try discriminate Q; cbn; now apply IH.
Qed.

(** The monitor never comes back to [Start]. *)
Lemma watch_reaches_Start (s : phase) (t : nat) (pre : list event) :
  watch_all closed s t pre = Some Start -> pre = [] /\ s = Start.
Proof.
  revert s t. induction pre as [|e pre IH]; intros s t; cbn.
  - intros [= ->]. now split.
  - destruct (watch closed s t e) as [s'|] eqn:W; [|discriminate].
    intros H. apply IH in H. destruct H as [_ ->].
    destruct s, e; cbn in W; try discriminate;
      repeat match type of W with
             | context [if ?c then _ else _] => destruct c
             end; discriminate.
Qed.

(** It is in [Polled] right after a poll that found the token open. *)
Lemma watch_reaches_Polled (t : nat) (pre : list event) :
  watch_all closed Start t pre = Some Polled ->
  exists pre', pre = (pre' ++ [EvPoll false])%list.
Proof.
  destruct pre as [|x l] using rev_ind; [discriminate|]. clear IHl.
  rewrite watch_all_app.
  destruct (watch_all closed Start t l) as [s1|]; [|discriminate].
  cbn. destruct (watch closed s1 (t + elapsed l) x) as [s2|] eqn:W;
    [|discriminate].
  intros [= ->]. exists l.
  destruct s1, x; cbn in W; try discriminate;
    repeat match type of W with
           | context [if ?c then _ else _] => destruct c eqn:?
           end; try discriminate.
  reflexivity.
Qed.

(** It is in [Announced] right after such a poll and the line that
    announces a download. *)
Lemma watch_reaches_Announced (t : nat) (pre : list event) :
  watch_all closed Start t pre = Some Announced ->
  exists pre' u, pre = (pre' ++ [EvPoll false; EvDownloading u])%list.
Proof.
  destruct pre as [|x l] using rev_ind; [discriminate|]. clear IHl.
  rewrite watch_all_app.
  destruct (watch_all closed Start t l) as [s1|] eqn:L; [|discriminate].
  cbn. destruct (watch closed s1 (t + elapsed l) x) as [s2|] eqn:W;
    [|discriminate].
  intros [= ->].
  assert (s1 = Polled /\ exists u, x = EvDownloading u) as [-> [u ->]].
  { destruct s1, x; cbn in W; try discriminate;
      repeat match type of W with
             | context [if ?c then _ else _] => destruct c eqn:?
             end; try discriminate.
    split; eauto. }
  apply watch_reaches_Polled in L. destruct L as [pre' ->].
  exists pre', u. now rewrite <- app_assoc.
Qed.

End Monitor.

Section Watched.

Variable w : World.
Variable config : Config.

Lemma getHTML_watched (s : phase) (u : URL) (t : nat) :
  s = Start \/ (s = Polled /\ terminate_closed w t = false) ->
  watch_all (terminate_closed w) s t (fst (getHTML w u t)) = Some Idle.
Proof.
  intros H. rewrite getHTML_cases.
  destruct H as [->|[-> Open]]; destruct (http_Do w t u); cbn;
    rewrite ?Open; reflexivity.
Qed.

Lemma createFile_quiet (urlPath : string) (t : nat) :
  forallb quiet (fst (createFile w config urlPath t)) = true.
Proof.
  destruct (Nat.lt_ge_cases (List.length (strings.Split "/" urlPath)) 3)
    as [H|H].
  - now rewrite createFile_short.
  - destruct (last_three _ H) as (pre & d1 & d2 & f & E).
    rewrite (createFile_three w config urlPath pre d1 d2 f t E).
    unfold createFile_in.
    destruct (os_Stat_IsNotExist w t _); [destruct (os_MkdirAll w _ _)|];
      reflexivity.
Qed.

Lemma download_watched (url : URL) (t : nat) :
  terminate_closed w t = false ->
  watch_all (terminate_closed w) Polled t (fst (download w config url t)) = Some Idle.
Proof.
  intros Open. rewrite download_cases.
  destruct (http_Do w t url) as [body|].
  - pose proof (createFile_quiet (Path url) (t + 1)) as Q.
    destruct (createFile w config (Path url) (t + 1)) as [es r].
    cbn [fst] in Q.
    assert (W : forall tail,
               forallb quiet tail = true ->
               watch_all (terminate_closed w) Polled t
                 (EvDownloading url :: EvDo url true :: (es ++ tail)%list)
               = Some Idle).
    { intros tail Qt. cbn [watch_all watch tick]. rewrite ?Nat.add_0_r, Open.
      cbn [watch_all watch tick]. rewrite ?Nat.add_0_r, Open.
      apply watch_all_quiet. rewrite forallb_app. now rewrite Q, Qt. }
    destruct r as [[file [err|]]|msg|code|];
      try (specialize (W [] eq_refl); rewrite app_nil_r in W; exact W).
    destruct (io_Copy w (t + 1 + elapsed es) file body) as [n ok].
    cbn [fst]. now apply W.
  - cbn [fst watch_all watch tick]. rewrite ?Nat.add_0_r, Open.
    cbn [watch_all watch tick]. rewrite ?Nat.add_0_r, Open. reflexivity.
Qed.

Lemma handle_file_cases (fileUrl : URL) (t : nat) :
  Cancellable.handle_file w config fileUrl t =
  if terminate_closed w t then
    ([EvPoll true; EvPrintln "downloading is terminated"], Ret (Some None))
  else
    match download w config fileUrl t with
    | (es, Ret (_, Some err)) =>
        ((EvPoll false :: es ++ [EvLogDownload fileUrl err])%list, Ret None)
    | (es, Ret (_, None)) => (EvPoll false :: es, Ret None)
    | (es, Panic msg) => (EvPoll false :: es, Panic msg)
    | (es, Exit code) => (EvPoll false :: es, Exit code)
    | (es, Block) => (EvPoll false :: es, Block)
    end.
Proof.
  unfold Cancellable.handle_file, bind. rewrite poll_cases.
  cbn [elapsed map tick list_sum]. tidy_time.
  destruct (terminate_closed w t); [reflexivity|].
  destruct (download w config fileUrl t) as [es r].
  destruct r as [[n [err|]]|msg|code|]; cbn; rewrite ?app_nil_r; reflexivity.
Qed.

Lemma handle_page_cases (pageUrl : URL) (t : nat) :
  Cancellable.handle_page w config pageUrl t =
  if terminate_closed w t then
    ([EvPoll true; EvPrintln "handle is terminated"], Ret (Some None))
  else
    match getHTML w pageUrl t with
    | (es, Ret (_, Some err)) =>
        ((EvPoll false :: es ++ [EvLogPage pageUrl err])%list, Ret None)
    | (es, Ret (html, None)) =>
        let '(es', r') :=
          range (Cancellable.getTifUrls pageUrl html)
                (Cancellable.handle_file w config) (t + elapsed es) in
        ((EvPoll false :: es ++ es')%list, r')
    | (es, Panic msg) => (EvPoll false :: es, Panic msg)
    | (es, Exit code) => (EvPoll false :: es, Exit code)
    | (es, Block) => (EvPoll false :: es, Block)
    end.
Proof.
  unfold Cancellable.handle_page, bind at 1. rewrite poll_cases.
  cbn [elapsed map tick list_sum]. tidy_time.
  destruct (terminate_closed w t); [reflexivity|].
  unfold bind at 1.
  destruct (getHTML w pageUrl t) as [es r].
  destruct r as [[html [err|]]|msg|code|]; try reflexivity.
  destruct (range _ _ _) as [es' r']. reflexivity.
Qed.

Lemma handle_file_watched (fileUrl : URL) (t : nat) :
  exists s',
    watch_all (terminate_closed w) Idle t (fst (Cancellable.handle_file w config fileUrl t))
    = Some s'
    /\ left_in (snd (Cancellable.handle_file w config fileUrl t)) s'.
Proof.
  rewrite handle_file_cases. destruct (terminate_closed w t) eqn:Open.
  - exists Stopped. cbn [fst snd watch_all watch tick].
    rewrite ?Nat.add_0_r, Open. split; [reflexivity|]. now left.
  - exists Idle.
    pose proof (download_watched fileUrl t Open) as D.
    destruct (download w config fileUrl t) as [es r]. cbn [fst] in D.
    assert (P : forall tail,
               forallb quiet tail = true ->
               watch_all (terminate_closed w) Idle t (EvPoll false :: (es ++ tail)%list)
               = Some Idle).
    { intros tail Qt. cbn [watch_all watch tick].
      rewrite ?Nat.add_0_r, Open. cbn [Bool.eqb].
      rewrite watch_all_app, D. now apply watch_all_quiet. }
    destruct r as [[n [err|]]|msg|code|];
      (split; [|right; split; [reflexivity|intros v; discriminate]]);
      cbn [fst];
      try (specialize (P [] eq_refl); rewrite app_nil_r in P; exact P).
    now apply P.
Qed.

(** A loop whose body keeps the protocol keeps it. *)
Lemma range_watched (body : URL -> M (option (option error))) :
  (forall u t, exists s',
      watch_all (terminate_closed w) Idle t (fst (body u t)) = Some s'
      /\ left_in (snd (body u t)) s') ->
  forall ops t, exists s',
      watch_all (terminate_closed w) Idle t (fst (range ops body t)) = Some s'
      /\ left_in (snd (range ops body t)) s'.
Proof.
  intros B ops. induction ops as [|op ops IH]; intros t.
  - exists Idle. split; [reflexivity|]. right. split; [reflexivity|].
    intros v; discriminate.
  - destruct op as [u| |msg].
    + rewrite range_send. destruct (B u t) as (s1 & W1 & L1).
      destruct (body u t) as [es r]. cbn [fst snd] in W1, L1.
      destruct r as [[v|]|msg|code|]; try (exists s1; now split).
      destruct L1 as [[_ L1]|[-> _]]; [discriminate L1|].
      destruct (IH (t + elapsed es)) as (s2 & W2 & L2).
      exists s2. cbn [fst snd]. split; [|exact L2].
      now rewrite watch_all_app, W1.
    + exists Idle. split; [reflexivity|]. right. split; [reflexivity|].
      intros v; discriminate.
    + exists Idle. split; [reflexivity|]. right. split; [reflexivity|].
      intros v; discriminate.
Qed.

Lemma handle_page_watched (pageUrl : URL) (t : nat) :
  exists s',
    watch_all (terminate_closed w) Idle t (fst (Cancellable.handle_page w config pageUrl t))
    = Some s'
    /\ left_in (snd (Cancellable.handle_page w config pageUrl t)) s'.
Proof.
  rewrite handle_page_cases. destruct (terminate_closed w t) eqn:Open.
  - exists Stopped. cbn [fst snd watch_all watch tick].
    rewrite ?Nat.add_0_r, Open. split; [reflexivity|]. now left.
  - pose proof (getHTML_watched Polled pageUrl t (or_intror (conj eq_refl Open)))
      as G.
    destruct (getHTML w pageUrl t) as [es r]. cbn [fst] in G.
    assert (P : forall tail s',
               watch_all (terminate_closed w) Idle (t + elapsed es) tail = Some s' ->
               watch_all (terminate_closed w) Idle t (EvPoll false :: (es ++ tail)%list)
               = Some s').
    { intros tail s' Wt. cbn [watch_all watch tick].
      rewrite ?Nat.add_0_r, Open. cbn [Bool.eqb].
      now rewrite watch_all_app, G. }
    assert (I : forall r' : result (option (option error)),
               (forall v, r' <> Ret (Some v)) -> left_in r' Idle)
      by (intros r' N; right; now split).
    destruct r as [[html [err|]]|msg|code|].
    + exists Idle. split; [now apply P | apply I; intros v; discriminate].
    + destruct (range_watched _ handle_file_watched
                  (Cancellable.getTifUrls pageUrl html) (t + elapsed es))
        as (s2 & W2 & L2).
      destruct (range _ _ _) as [es' r']. cbn [fst snd] in *.
      exists s2. split; [now apply P | exact L2].
    + exists Idle. split; [|apply I; intros v; discriminate].
      specialize (P [] Idle eq_refl). now rewrite app_nil_r in P.
    + exists Idle. split; [|apply I; intros v; discriminate].
      specialize (P [] Idle eq_refl). now rewrite app_nil_r in P.
    + exists Idle. split; [|apply I; intros v; discriminate].
      specialize (P [] Idle eq_refl). now rewrite app_nil_r in P.
Qed.

Lemma handle_cases (params : PageParam) (t : nat) :
  Cancellable.handle w config params t =
  match url_Parse w (Url params) with
  | None => ([], Panic "invalid memory address or nil pointer dereference")
  | Some baseURL =>
      match getHTML w baseURL t with
      | (es, Ret (_, Some err)) => (es, Ret (Some (ErrGetHTML err)))
      | (es, Ret (html, None)) =>
          match range (Cancellable.parseURLs w baseURL html (PageRanges params))
                      (Cancellable.handle_page w config) (t + elapsed es) with
          | (es', Ret (Some v)) => ((es ++ es')%list, Ret v)
          | (es', Ret None) => ((es ++ es')%list, Ret None)
          | (es', Panic msg) => ((es ++ es')%list, Panic msg)
          | (es', Exit code) => ((es ++ es')%list, Exit code)
          | (es', Block) => ((es ++ es')%list, Block)
          end
      | (es, Panic msg) => (es, Panic msg)
      | (es, Exit code) => (es, Exit code)
      | (es, Block) => (es, Block)
      end
  end.
Proof.
  unfold Cancellable.handle.
  destruct (url_Parse w (Url params)) as [baseURL|]; [|reflexivity].
  unfold bind at 1. destruct (getHTML w baseURL t) as [es r].
  destruct r as [[html [err|]]|msg|code|]; try reflexivity.
  - unfold ret. now rewrite app_nil_r.
  - unfold bind. destruct (range _ _ _) as [es' r'].
    destruct r' as [[v|]|msg|code|]; unfold ret; rewrite ?app_nil_r;
      reflexivity.
Qed.

(** The whole Job keeps the protocol; it ends at the start (the URL did not
    parse), idle, or stopped by the token, and then it has returned nil. *)
Lemma handle_watched (params : PageParam) :
  exists s',
    watch_all (terminate_closed w) Start 0 (fst (Cancellable.handle w config params 0))
    = Some s'
    /\ (s' = Start \/ s' = Idle
        \/ (s' = Stopped
            /\ snd (Cancellable.handle w config params 0) = Ret None)).
Proof.
  rewrite handle_cases.
  destruct (url_Parse w (Url params)) as [baseURL|];
    [|exists Start; split; [reflexivity | now left]].
  pose proof (getHTML_watched Start baseURL 0 (or_introl eq_refl)) as G.
  destruct (getHTML w baseURL 0) as [es r]. cbn [fst] in G.
  destruct r as [[html [err|]]|msg|code|];
    try (exists Idle; split; [exact G | now right; left]).
  destruct (range_watched _ handle_page_watched
              (Cancellable.parseURLs w baseURL html (PageRanges params))
              (0 + elapsed es)) as (s2 & W2 & L2).
  destruct (range _ _ _) as [es' r']. cbn [fst snd] in W2, L2.
  assert (W : watch_all (terminate_closed w) Start 0 (es ++ es') = Some s2)
    by now rewrite watch_all_app, G.
  destruct r' as [[v|]|msg|code|]; cbn [fst snd];
    exists s2; (split; [exact W|]).
  - destruct L2 as [[-> [= ->]]|[_ N]]; [|now destruct (N v)].
    right; right. now split.
  - destruct L2 as [[_ L2]|[-> _]]; [discriminate L2 | now right; left].
  - destruct L2 as [[_ L2]|[-> _]]; [discriminate L2 | now right; left].
  - destruct L2 as [[_ L2]|[-> _]]; [discriminate L2 | now right; left].
  - destruct L2 as [[_ L2]|[-> _]]; [discriminate L2 | now right; left].
Qed.

End Watched.

(** Where the polls stand in the trace of a Job of [part_000]: before
    every request but the first, with at most the line that announces a
    download in between; a poll that found the token closed is followed by
    one printed line and the return of nil, a poll that found it open by the
    fetch or the download it guards. *)
Lemma handle_poll_discipline (w : World) (config : Config)
    (params : PageParam) :
  (forall pre u ok post,
      fst (Cancellable.handle w config params 0)
      = (pre ++ EvDo u ok :: post)%list -> pre <> [] ->
      (exists pre', pre = (pre' ++ [EvPoll false])%list)
      \/ exists pre' f,
           pre = (pre' ++ [EvPoll false; EvDownloading f])%list)
  /\ (forall pre b post,
        fst (Cancellable.handle w config params 0)
        = (pre ++ EvPoll b :: post)%list ->
        if b
        then (exists line, post = [EvPrintln line])
             /\ snd (Cancellable.handle w config params 0) = Ret None
        else exists e post',
               post = e :: post'
               /\ ((exists u ok, e = EvDo u ok)
                   \/ exists f, e = EvDownloading f)).
Proof.
  destruct (handle_watched w config params) as (sf & W & F).
  split.
  - intros pre u ok post E Hne. rewrite E in W.
    apply watch_all_at in W. destruct W as (s1 & s2 & W1 & W2 & _).
    destruct s1; cbn in W2; try discriminate.
    + apply watch_reaches_Start in W1. now destruct W1.
    + left. now apply watch_reaches_Polled in W1.
    + right. now apply watch_reaches_Announced in W1.
  - intros pre b post E. rewrite E in W.
    apply watch_all_at in W. destruct W as (s1 & s2 & W1 & W2 & W3).
    cbn [Nat.add tick] in W2, W3.
    destruct s1; cbn in W2; try discriminate.
    destruct (Bool.eqb b (terminate_closed w (elapsed pre))) eqn:B;
      [|discriminate].
    injection W2 as <-. destruct b.
    + destruct post as [|e post']; cbn in W3.
      * injection W3 as <-.
        destruct F as [F|[F|[F _]]]; discriminate F.
      * destruct e; try discriminate W3.
        destruct post' as [|e' post'']; cbn in W3; [|discriminate W3].
        injection W3 as <-.
        destruct F as [F|[F|[_ F]]]; try discriminate F.
        split; [eauto | exact F].
    + destruct post as [|e post']; cbn in W3.
      * injection W3 as <-.
        destruct F as [F|[F|[F _]]]; discriminate F.
      * exists e, post'. split; [reflexivity|].
        destruct e; try discriminate W3; eauto.
Qed.

(** ** Transfers run whole *)

Lemma app_eq_middle {A} (a b pre post : list A) (x : A) :
  (a ++ b)%list = (pre ++ x :: post)%list ->
  (exists post_a, a = (pre ++ x :: post_a)%list /\ post = (post_a ++ b)%list)
  \/ exists pre_b, pre = (a ++ pre_b)%list /\ b = (pre_b ++ x :: post)%list.
Proof.
  revert pre. induction a as [|y a IH]; intros pre E.
  - right. now exists pre.
  - destruct pre as [|z pre]; cbn in E; injection E as -> E.
    + left. now exists a.
    + destruct (IH pre E) as [(post_a & -> & ->)|(pre_b & -> & ->)].
      * left. now exists post_a.
      * right. now exists pre_b.
Qed.

Section Whole.

Variable w : World.
Variable config : Config.

Lemma runs_passive (t : nat) (es : list event) :
  forallb passive es = true -> runs w config t es.
Proof.
  intros P. split.
  - intros pre f post E. rewrite E, forallb_app in P.
    apply andb_true_iff in P. destruct P as [_ P]. discriminate P.
  - intros pre u ok post E. rewrite E, forallb_app in P.
    apply andb_true_iff in P. destruct P as [_ P]. discriminate P.
Qed.

Lemma runs_app (t : nat) (a b : list event) :
  runs w config t a -> runs w config (t + elapsed a) b ->
  runs w config t (a ++ b).
Proof.
  intros [Da Fa] [Db Fb]. split.
  - intros pre f post E. apply app_eq_middle in E.
    destruct E as [(post_a & -> & ->)|(pre_b & -> & ->)].
    + destruct (Da pre f post_a eq_refl) as [post' E'].
      exists (post' ++ b)%list. rewrite app_assoc, <- E'. reflexivity.
    + destruct (Db pre_b f post eq_refl) as [post' E'].
      exists post'. now rewrite elapsed_app, Nat.add_assoc.
  - intros pre u ok post E. apply app_eq_middle in E.
    destruct E as [(post_a & -> & ->)|(pre_b & -> & ->)].
    + destruct (Fa pre u ok post_a eq_refl) as [[pre' ->]|[post' E']].
      * left. now exists pre'.
      * right. exists (post' ++ b)%list. rewrite app_assoc, <- E'.
        reflexivity.
    + destruct (Fb pre_b u ok post eq_refl) as [[pre' ->]|[post' E']].
      * left. exists (a ++ pre')%list. now rewrite app_assoc.
      * right. exists post'. now rewrite elapsed_app, Nat.add_assoc.
Qed.

Lemma runs_getHTML (u : URL) (t : nat) :
  runs w config t (fst (getHTML w u t)).
Proof.
  split.
  - intros pre f post E. exfalso. rewrite getHTML_cases in E.
    destruct (http_Do w t u); cbn [fst] in E;
      destruct pre as [|? [|? [|? pre]]]; discriminate E.
  - intros pre u' ok post E. right. exists [].
    assert (pre = [] /\ u' = u) as [-> ->].
    { rewrite getHTML_cases in E.
      destruct (http_Do w t u); cbn [fst] in E;
        destruct pre as [|? [|? [|? pre]]]; try discriminate E;
        injection E as <-; auto. }
    cbn [elapsed map list_sum app] in *. rewrite Nat.add_0_r, app_nil_r.
    exact (eq_sym E).
Qed.

(** The events of [download]: the line, the request, then events that
    start nothing. *)
Lemma download_events (f : URL) (t : nat) :
  exists ok rest,
    fst (download w config f t) = EvDownloading f :: EvDo f ok :: rest
    /\ forallb passive rest = true.
Proof.
  assert (Q : forall l, forallb quiet l = true -> forallb passive l = true).
  { induction l as [|e l IH]; [reflexivity|]. cbn. intros H.
    apply andb_true_iff in H. destruct H as [He Hl].
    rewrite (IH Hl). now destruct e. }
  rewrite download_cases. destruct (http_Do w t f) as [body|].
  - pose proof (createFile_quiet w config (Path f) (t + 1)) as C.
    destruct (createFile w config (Path f) (t + 1)) as [es r].
    cbn [fst] in C. apply Q in C.
    destruct r as [[file [err|]]|msg|code|];
      try (exists true, es; now split).
    destruct (io_Copy w (t + 1 + elapsed es) file body) as [n ok].
    exists true, (es ++ [EvCopy file n ok])%list. split; [reflexivity|].
    rewrite forallb_app, C. reflexivity.
  - exists false, [EvFatalf f (ErrDo f)]. now split.
Qed.

Lemma runs_download (f : URL) (t : nat) :
  runs w config t (fst (download w config f t)).
Proof.
  destruct (download_events f t) as (ok & rest & E & P).
  assert (Deep : forall (pre : list event) (x : event) (post : list event),
             rest = (pre ++ x :: post)%list -> passive x = true).
  { intros pre x post R. rewrite R, forallb_app in P.
    apply andb_true_iff in P. destruct P as [_ P]. cbn in P.
    now apply andb_true_iff in P. }
  split.
  - intros pre f' post E'. rewrite E in E'.
    destruct pre as [|e1 [|e2 pre]]; cbn in E'.
    + injection E' as <- <-. exists [].
      cbn [elapsed map list_sum]. now rewrite Nat.add_0_r, app_nil_r, E.
    + discriminate E'.
    + injection E' as _ _ E'. now apply Deep in E'.
  - intros pre u ok' post E'. rewrite E in E'.
    destruct pre as [|e1 [|e2 pre]]; cbn in E'.
    + discriminate E'.
    + injection E' as <- <- _ _. left. now exists [].
    + injection E' as _ _ E'. now apply Deep in E'.
Qed.

Lemma runs_cons_passive (t : nat) (e : event) (es : list event) :
  passive e = true -> tick e = 0 ->
  runs w config t es -> runs w config t (e :: es).
Proof.
  intros P T R. change (e :: es) with ([e] ++ es)%list.
  apply runs_app.
  - apply runs_passive. cbn. now rewrite P.
  - unfold elapsed. cbn [map list_sum]. now rewrite T, !Nat.add_0_r.
Qed.

Lemma runs_snoc_passive (t : nat) (e : event) (es : list event) :
  passive e = true ->
  runs w config t es -> runs w config t (es ++ [e]).
Proof.
  intros P R. apply runs_app; [exact R|].
  apply runs_passive. cbn. now rewrite P.
Qed.

Lemma runs_handle_file (f : URL) (t : nat) :
  runs w config t (fst (Cancellable.handle_file w config f t)).
Proof.
  rewrite handle_file_cases. destruct (terminate_closed w t).
  - now apply runs_passive.
  - pose proof (runs_download f t) as D.
    destruct (download w config f t) as [es r]. cbn [fst] in D.
    destruct r as [[n [err|]]|msg|code|]; cbn [fst];
      apply runs_cons_passive; try reflexivity; try exact D.
    now apply runs_snoc_passive.
Qed.

Lemma runs_range {R} (body : URL -> M (option R)) :
  (forall u t, runs w config t (fst (body u t))) ->
  forall ops t, runs w config t (fst (range ops body t)).
Proof.
  intros B ops. induction ops as [|op ops IH]; intros t.
  - now apply runs_passive.
  - destruct op as [u| |msg]; try now apply runs_passive.
    rewrite range_send. specialize (B u t).
    destruct (body u t) as [es r]. cbn [fst] in B.
    destruct r as [[v|]|msg|code|]; cbn [fst]; try exact B.
    apply runs_app; [exact B | apply IH].
Qed.

Lemma runs_handle_page (u : URL) (t : nat) :
  runs w config t (fst (Cancellable.handle_page w config u t)).
Proof.
  rewrite handle_page_cases. destruct (terminate_closed w t).
  - now apply runs_passive.
  - pose proof (runs_getHTML u t) as G.
    destruct (getHTML w u t) as [es r]. cbn [fst] in G.
    destruct r as [[html [err|]]|msg|code|]; cbn [fst];
      try (apply runs_cons_passive; try reflexivity; exact G).
    + apply runs_cons_passive; try reflexivity.
      now apply runs_snoc_passive.
    + pose proof (runs_range _ runs_handle_file
                    (Cancellable.getTifUrls u html) (t + elapsed es)) as L.
      destruct (range _ _ _) as [es' r']. cbn [fst] in *.
      apply runs_cons_passive; try reflexivity.
      now apply runs_app.
Qed.

Lemma runs_handle (params : PageParam) (t : nat) :
  runs w config t (fst (Cancellable.handle w config params t)).
Proof.
  rewrite handle_cases.
  destruct (url_Parse w (Url params)) as [baseURL|];
    [|now apply runs_passive].
  pose proof (runs_getHTML baseURL t) as G.
  destruct (getHTML w baseURL t) as [es r]. cbn [fst] in G.
  destruct r as [[html [err|]]|msg|code|]; cbn [fst]; try exact G.
  pose proof (runs_range _ runs_handle_page
                (Cancellable.parseURLs w baseURL html (PageRanges params))
                (t + elapsed es)) as L.
  destruct (range _ _ _) as [es' r']. cbn [fst] in L.
  destruct r' as [[v|]|msg|code|]; cbn [fst]; now apply runs_app.
Qed.

End Whole.

(** ** The token in real time *)

Lemma observes_at (token : nat -> bool) (i : nat) (pre post : list event)
    (b : bool) :
  observes token i (pre ++ EvPoll b :: post) = true ->
  b = token (i + List.length pre).
Proof.
  revert i. induction pre as [|e pre IH]; intros i H.
  - cbn in H. apply andb_true_iff in H. destruct H as [H _].
    apply Bool.eqb_prop in H. now rewrite Nat.add_0_r.
  - assert (T : observes token (S i) (pre ++ EvPoll b :: post) = true).
    { destruct e; cbn in H; try exact H.
      apply andb_true_iff in H. now destruct H. }
    rewrite (IH _ T). cbn [List.length]. f_equal. lia.
Qed.

Lemma nth_error_middle {A} (pre post : list A) (x : A) :
  nth_error (pre ++ x :: post) (List.length pre) = Some x.
Proof.
  rewrite nth_error_app2 by lia. now rewrite Nat.sub_diag.
Qed.

(** Between two polls a Job completes at least one blocking call, so the
    polls of a Job ask the world at different indices: the world can give
    each poll any answer. *)
Lemma polls_ask_at_different_indices (w : World) (config : Config)
    (params : PageParam) (pre mid post : list event) (b1 b2 : bool) :
  fst (Cancellable.handle w config params 0)
  = (pre ++ EvPoll b1 :: mid ++ EvPoll b2 :: post)%list ->
  0 < elapsed mid.
Proof.
  intros E.
  destruct (handle_poll_discipline w config params) as [_ P].
  pose proof (P pre b1 _ E) as Q. destruct b1.
  - destruct Q as [[line Q] _].
    destruct mid as [|x [|y mid]]; discriminate Q.
  - destruct Q as (e & post' & Q & [(u & ok & ->)|(f & ->)]).
    + destruct mid as [|x mid]; [discriminate Q|].
      injection Q as -> _. cbn. lia.
    + destruct mid as [|x mid]; [discriminate Q|].
      injection Q as -> Q.
      destruct (proj1 (runs_handle w config params 0)
                  (pre ++ [EvPoll false])%list f
                  (mid ++ EvPoll b2 :: post)%list) as [post'' R].
      { rewrite E, <- app_assoc. reflexivity. }
      destruct (download_events w config f
                  (0 + elapsed (pre ++ [EvPoll false])))
        as (ok & rest & D & _).
      rewrite D in R. cbn in R. injection R as R.
      destruct mid as [|y mid]; [discriminate R|].
      injection R as -> _. cbn. lia.
Qed.

(** C7 as the specification words it fails.  On the archive, let [main]
    close the token right after the Job has polled it before the first
    sub-page (moment 3): every poll of the Job reports the token of its
    moment, and the fetch of the sub-page starts with the token closed. *)
Lemma transfer_starts_after_activation :
  observes (activated_at 3) 0
    (fst (Cancellable.handle (archive [] (Some 3)) (out_config [tiles])
            tiles 0)) = true
  /\ fst (Cancellable.handle (archive [] (Some 3)) (out_config [tiles])
            tiles 0)
     = ([EvDo archive_root true; EvReadAll archive_root true; EvPoll false]
          ++ EvDo archive_page1 true
          :: [EvReadAll archive_page1 true; EvPoll true;
              EvPrintln "downloading is terminated"])%list
  /\ ~ no_transfer_once_activated (activated_at 3)
        (fst (Cancellable.handle (archive [] (Some 3)) (out_config [tiles])
                tiles 0)).
Proof.
  assert (E : fst (Cancellable.handle (archive [] (Some 3))
                     (out_config [tiles]) tiles 0)
              = ([EvDo archive_root true; EvReadAll archive_root true;
                  EvPoll false]
                   ++ EvDo archive_page1 true
                   :: [EvReadAll archive_page1 true; EvPoll true;
                       EvPrintln "downloading is terminated"])%list)
    by (vm_compute; reflexivity).
  split; [vm_compute; reflexivity|]. split; [exact E|].
  intros N. specialize (N _ _ _ _ E). discriminate N. discriminate.
Qed.

(** C7, as the code has it.  Let the token be closed from the moment [A]
    on, the moments counted in events of the Job, and let every poll of the
    Job of [part_000] report the token of its moment.  Then:
    every request but the first (the root page) comes right after a poll
    that was made before [A] and found the token open, with at most the line
    that announces the download in between; once a request has started with
    the token closed, the Job starts no further request; a poll made at or
    after [A] is followed by one printed line and the return of nil; a poll
    made before [A] is followed by the fetch or download it guards; and the
    Job interrupts nothing it has started: every announced download is in
    the trace with all the events of [download], every other request with
    all the events of [getHTML]. *)
Theorem cancellation_is_checked_at_polls (w : World) (config : Config)
    (params : PageParam) (A : nat) :
  observes (activated_at A) 0 (fst (Cancellable.handle w config params 0))
  = true ->
  (forall pre u ok post,
      fst (Cancellable.handle w config params 0)
      = (pre ++ EvDo u ok :: post)%list -> pre <> [] ->
      (exists pre', pre = (pre' ++ [EvPoll false])%list
                    /\ List.length pre' < A)
      \/ exists pre' f,
           pre = (pre' ++ [EvPoll false; EvDownloading f])%list
           /\ List.length pre' < A)
  /\ (forall pre1 u1 ok1 post1 pre2 u2 ok2 post2,
        fst (Cancellable.handle w config params 0)
        = (pre1 ++ EvDo u1 ok1 :: post1)%list ->
        fst (Cancellable.handle w config params 0)
        = (pre2 ++ EvDo u2 ok2 :: post2)%list ->
        A <= List.length pre1 ->
        List.length pre2 <= List.length pre1)
  /\ (forall pre post,
        fst (Cancellable.handle w config params 0)
        = (pre ++ EvPoll true :: post)%list ->
        A <= List.length pre
        /\ (exists line, post = [EvPrintln line])
        /\ snd (Cancellable.handle w config params 0) = Ret None)
  /\ (forall pre post,
        fst (Cancellable.handle w config params 0)
        = (pre ++ EvPoll false :: post)%list ->
        List.length pre < A
        /\ exists e post',
             post = e :: post'
             /\ ((exists u ok, e = EvDo u ok)
                 \/ exists f, e = EvDownloading f))
  /\ runs w config 0 (fst (Cancellable.handle w config params 0)).
Proof.
  intros O.
  destruct (handle_poll_discipline w config params) as [D P].
  assert (Open : forall pre post,
             fst (Cancellable.handle w config params 0)
             = (pre ++ EvPoll false :: post)%list ->
             List.length pre < A).
  { intros pre post E. rewrite E in O. apply observes_at in O.
    cbn [Nat.add] in O. unfold activated_at in O.
    symmetry in O. apply Nat.leb_gt in O. exact O. }
  assert (Guard : forall pre u ok post,
             fst (Cancellable.handle w config params 0)
             = (pre ++ EvDo u ok :: post)%list -> pre <> [] ->
             (exists pre', pre = (pre' ++ [EvPoll false])%list
                           /\ List.length pre' < A)
             \/ exists pre' f,
                  pre = (pre' ++ [EvPoll false; EvDownloading f])%list
                  /\ List.length pre' < A).
  { intros pre u ok post E Hne.
    destruct (D pre u ok post E Hne) as [[pre' ->]|(pre' & f & ->)].
    - left. exists pre'. split; [reflexivity|].
      rewrite <- app_assoc in E. exact (Open _ _ E).
    - right. exists pre', f. split; [reflexivity|].
      rewrite <- app_assoc in E. exact (Open _ _ E). }
  split; [exact Guard|]. split; [|split; [|split]].
  - intros pre1 u1 ok1 post1 pre2 u2 ok2 post2 E1 E2 HA.
    destruct (Nat.le_gt_cases (List.length pre2) (List.length pre1))
      as [H|H]; [exact H|exfalso].
    assert (Hne : pre2 <> []) by (intros ->; cbn in H; lia).
    destruct (Guard pre2 u2 ok2 post2 E2 Hne)
      as [(pre' & -> & L)|(pre' & f & -> & L)].
    + rewrite length_app in H. cbn in H. lia.
    + rewrite length_app in H. cbn in H.
      assert (L1 : List.length pre1 = List.length (pre' ++ [EvPoll false]))
        by (rewrite length_app; cbn; lia).
      pose proof (nth_error_middle pre1 post1 (EvDo u1 ok1)) as N1.
      rewrite <- E1, E2, L1 in N1.
      replace ((pre' ++ [EvPoll false; EvDownloading f])
                 ++ EvDo u2 ok2 :: post2)%list
        with ((pre' ++ [EvPoll false])
                ++ EvDownloading f :: EvDo u2 ok2 :: post2)%list in N1
        by (rewrite <- !app_assoc; reflexivity).
      rewrite nth_error_middle in N1. discriminate N1.
  - intros pre post E. pose proof (P pre true post E) as [L R].
    split; [|now split].
    rewrite E in O. apply observes_at in O. cbn [Nat.add] in O.
    unfold activated_at in O. symmetry in O. now apply Nat.leb_le in O.
  - intros pre post E. split; [exact (Open _ _ E)|].
    exact (P pre false post E).
  - apply runs_handle.
Qed.

Lemma cancellation_is_checked_at_polls_witness :
  observes (activated_at 3) 0
    (fst (Cancellable.handle (archive [] (Some 3)) (out_config [tiles])
            tiles 0)) = true
  /\ (forall pre post,
        fst (Cancellable.handle (archive [] (Some 3)) (out_config [tiles])
               tiles 0)
        = (pre ++ EvPoll true :: post)%list ->
        3 <= List.length pre
        /\ (exists line, post = [EvPrintln line])
        /\ snd (Cancellable.handle (archive [] (Some 3)) (out_config [tiles])
                  tiles 0) = Ret None).
Proof.
  assert (O : observes (activated_at 3) 0
                (fst (Cancellable.handle (archive [] (Some 3))
                        (out_config [tiles]) tiles 0)) = true)
    by (vm_compute; reflexivity).
  split; [exact O|].
  exact (proj1 (proj2 (proj2 (cancellation_is_checked_at_polls
                                (archive [] (Some 3)) (out_config [tiles])
                                tiles 3 O)))).
Defined.

(** * Further properties of the code *)

(** ** What the pattern of [getTifUrls] matches *)

Lemma strip_prefix_sound (p s r : string) :
  strip_prefix p s = Some r -> s = p ++ r.
Proof.
  revert s. induction p as [|a p IH]; intros [|b s]; cbn; try discriminate.
  - now intros [= ->].
  - now intros [= ->].
  - destruct (Ascii.eqb_spec a b) as [->|]; [|discriminate].
    intros H. now rewrite (IH _ H).
Qed.

Lemma star_tif_sound (r taken : string) :
  star_tif r = Some taken ->
  has_newline taken = false /\ exists rest, r = taken ++ tif_close ++ rest.
Proof.
  revert taken. induction r as [|c r IH]; intros taken.
  - cbn. discriminate.
  - assert (Here : match strip_prefix tif_close (String c r) with
                   | Some _ => Some EmptyString
                   | None => None
                   end = Some taken ->
                   has_newline taken = false
                   /\ exists rest, String c r = taken ++ tif_close ++ rest).
    { destruct (strip_prefix tif_close (String c r)) as [rest|] eqn:P;
        [|discriminate].
      intros [= <-]. split; [reflexivity|].
      exists rest. change (String c r = tif_close ++ rest).
      now apply strip_prefix_sound. }
    cbn [star_tif]. destruct (Ascii.eqb c newline) eqn:C; [exact Here|].
    destruct (star_tif r) as [taken'|]; [|exact Here].
    intros [= <-]. destruct (IH taken' eq_refl) as [N [rest ->]].
    split; [cbn [has_newline]; now rewrite C, N|]. now exists rest.
Qed.

Lemma tif_match_here_sound (s g : string) (len : nat) :
  tif_match_here s = Some (g, len) ->
  exists taken rest,
    g = taken ++ ".tif" /\ has_newline taken = false
    /\ s = href_open ++ taken ++ tif_close ++ rest.
Proof.
  unfold tif_match_here.
  destruct (strip_prefix href_open s) as [r|] eqn:P; [|discriminate].
  destruct (star_tif r) as [taken|] eqn:T; [|discriminate].
  intros [= <- _]. apply strip_prefix_sound in P.
  apply star_tif_sound in T. destruct T as [N [rest ->]].
  now exists taken, rest.
Qed.

Lemma tif_find_all_sound (skip : nat) (s g : string) :
  In g (tif_find_all skip s) ->
  exists taken a b,
    g = taken ++ ".tif" /\ has_newline taken = false
    /\ s = a ++ href_open ++ taken ++ tif_close ++ b.
Proof.
  revert skip. induction s as [|c s IH]; intros skip; cbn [tif_find_all].
  - intros [].
  - assert (Later : forall k, In g (tif_find_all k s) ->
                     exists taken a b,
                       g = taken ++ ".tif" /\ has_newline taken = false
                       /\ String c s = a ++ href_open ++ taken ++ tif_close ++ b).
    { intros k H. destruct (IH k H) as (taken & a & b & G & N & ->).
      now exists taken, (String c a), b. }
    destruct skip as [|k]; [|apply Later].
    destruct (tif_match_here (String c s)) as [[g1 len]|] eqn:M;
      [|apply Later].
    intros [<-|H]; [|now apply Later in H].
    apply tif_match_here_sound in M.
    destruct M as (taken & rest & G & N & E).
    exists taken, EmptyString, rest. now rewrite E.
Qed.

(** X1.  Every file URL that [getTifUrls] sends comes from the page: its
    path is the page path joined with a group that ends in .tif and holds no
    line feed, and the page holds that group between an href= with its
    opening quote and a closing quote. *)
Theorem getTifUrls_sends_only_hrefs_of_page (pageURL file : URL)
    (page : string) :
  In (Send file) (Plain.getTifUrls pageURL page)
  \/ In (Send file) (Cancellable.getTifUrls pageURL page) ->
  exists taken a b,
    Path file = path.Join [Path pageURL; taken ++ ".tif"]
    /\ has_newline taken = false
    /\ page = a ++ href_open ++ (taken ++ ".tif") ++ dquote ++ b.
Proof.
  intros H.
  assert (F : In (Send file) (getTifUrls_sends pageURL page)).
  { destruct H as [H|H]; [|exact H].
    unfold Plain.getTifUrls in H. apply in_app_or in H.
    destruct H as [H|[H|[]]]; [exact H | discriminate]. }
  unfold getTifUrls_sends in F. apply in_map_iff in F.
  destruct F as (g & E & G). inversion E; subst file. clear E.
  apply tif_find_all_sound in G.
  destruct G as (taken & a & b & -> & N & ->).
  exists taken, a, b. split; [reflexivity|]. split; [exact N|].
  unfold tif_close. now rewrite !append_assoc.
Qed.

Lemma getTifUrls_sends_only_hrefs_of_page_witness :
  In (Send (set_Path archive_page1 "/archive/tileSG-1/image1.tif"))
     (Plain.getTifUrls archive_page1
        (link "image1.tif" "image" ++ link "notes.txt" "notes"))
  /\ exists taken a b,
       "/archive/tileSG-1/image1.tif"
       = path.Join [Path archive_page1; taken ++ ".tif"]
       /\ has_newline taken = false
       /\ link "image1.tif" "image" ++ link "notes.txt" "notes"
          = a ++ href_open ++ (taken ++ ".tif") ++ dquote ++ b.
Proof.
  assert (I : In (Send (set_Path archive_page1 "/archive/tileSG-1/image1.tif"))
                (Plain.getTifUrls archive_page1
                   (link "image1.tif" "image" ++ link "notes.txt" "notes")))
    by (vm_compute; auto).
  split; [exact I|].
  exact (getTifUrls_sends_only_hrefs_of_page archive_page1 _ _ (or_introl I)).
Defined.

Lemma star_tif_complete (mid rest : string) :
  has_newline mid = false -> star_tif (mid ++ tif_close ++ rest) <> None.
Proof.
  intros N. induction mid as [|c mid IH].
  - cbn. destruct (star_tif rest); discriminate.
  - cbn [has_newline] in N. apply orb_false_iff in N. destruct N as [C N].
    cbn [append star_tif]. rewrite C.
    destruct (star_tif (mid ++ tif_close ++ rest)) eqn:S;
      [discriminate | now destruct (IH N)].
Qed.

Lemma tif_find_all_head (s : string) :
  tif_match_here s <> None -> tif_find_all 0 s <> [].
Proof.
  destruct s as [|c s]; [intros H; now contradiction H|].
  intros H. cbn [tif_find_all].
  destruct (tif_match_here (String c s)) as [[g len]|];
    [discriminate | now contradiction H].
Qed.

Lemma tif_find_all_complete (a mid rest : string) :
  has_newline mid = false ->
  tif_find_all 0 (a ++ href_open ++ mid ++ tif_close ++ rest) <> [].
Proof.
  intros N. induction a as [|c a IH].
  - apply tif_find_all_head. cbn [append]. unfold tif_match_here.
    rewrite strip_prefix_append.
    pose proof (star_tif_complete mid rest N) as S.
    destruct (star_tif (mid ++ tif_close ++ rest)); [discriminate|].
    now contradiction S.
  - cbn [append tif_find_all].
    destruct (tif_match_here _) as [[g len]|]; [discriminate | exact IH].
Qed.

(** X2.  A page that holds, on one line, an href= with its opening quote
    followed by text that ends in .tif and a closing quote makes
    [getTifUrls] send at least one file URL, in both files. *)
Theorem getTifUrls_finds_a_tile_link (pageURL : URL) (a mid rest : string) :
  has_newline mid = false ->
  sent (Plain.getTifUrls pageURL
          (a ++ href_open ++ mid ++ tif_close ++ rest)) <> []
  /\ sent (Cancellable.getTifUrls pageURL
             (a ++ href_open ++ mid ++ tif_close ++ rest)) <> [].
Proof.
  intros N. pose proof (tif_find_all_complete a mid rest N) as F.
  unfold Plain.getTifUrls, Cancellable.getTifUrls, getTifUrls_sends,
    tif_group1.
  destruct (tif_find_all 0 _) as [|g gs]; [contradiction|].
  split; discriminate.
Qed.

Lemma getTifUrls_finds_a_tile_link_witness :
  has_newline "maps/x" = false
  /\ sent (Plain.getTifUrls archive_page1
             ("<td>" ++ href_open ++ "maps/x" ++ tif_close ++ ">x</td>")) <> [].
Proof.
  split; [reflexivity|].
  exact (proj1 (getTifUrls_finds_a_tile_link archive_page1 "<td>" "maps/x"
                  ">x</td>" eq_refl)).
Defined.

(** ** Templates read back *)

Lemma Split_Join_fields (sep : ascii) (fs : list string) :
  fs <> [] ->
  Forall (fun f => strings.Split sep f = [f]) fs ->
  strings.Split sep (strings.Join fs (String sep "")) = fs.
Proof.
  unfold strings.Join. induction fs as [|f fs IH]; intros Hne W;
    [contradiction|].
  inversion W as [|? ? Hf Hfs]; subst.
  destruct fs as [|g gs]; [exact Hf|].
  change (strings.Split sep (f ++ String sep (String.concat (String sep "")
                                                (g :: gs)))
          = f :: g :: gs).
  rewrite Split_append_sep, Hf, IH by (discriminate || assumption).
  reflexivity.
Qed.

Lemma Split_prefixed (part : string) :
  strings.Split "|" part = [part] ->
  strings.Split "|" (prefixed part) = [prefixed part].
Proof. intros H. unfold prefixed. cbn. now rewrite H. Qed.

Lemma unprefix_prefixed (part : string) : unprefix (prefixed part) = part.
Proof. unfold unprefix, prefixed. now rewrite strip_prefix_append. Qed.

Lemma Split_spec_template (p : string) :
  strings.Split "|" (spec_template p) = map prefixed (strings.Split "|" p).
Proof.
  unfold spec_template. fold prefixed.
  change (map (fun part => prefixed part)) with (map prefixed).
  apply Split_Join_fields.
  - pose proof (Split_not_nil "|" p).
    destruct (strings.Split "|" p); [contradiction | discriminate].
  - pose proof (Split_fields_whole "|" p) as W.
    induction W as [|f fs Hf _ IH]; constructor; [|exact IH].
    now apply Split_prefixed.
Qed.

(** X3.  [buildLinkTemplates] loses nothing of its input: the alternatives
    of each template are the parts of the filter, each with the token
    before it, and taking the token off every alternative of every template
    gives the filters back, so different filter lists give different
    template lists. *)
Theorem buildLinkTemplates_round_trip (ranges : list string) :
  map (strings.Split "|") (buildLinkTemplates ranges)
  = map (fun p => map prefixed (strings.Split "|" p)) ranges
  /\ map template_filter (buildLinkTemplates ranges) = ranges.
Proof.
  unfold buildLinkTemplates. rewrite templates_loop. cbn [app].
  rewrite !map_map. split.
  - apply map_ext. intros p. apply Split_spec_template.
  - rewrite <- (map_id ranges) at 2. apply map_ext. intros p.
    unfold template_filter. rewrite Split_spec_template, map_map.
    rewrite (map_ext _ (fun x => x) unprefix_prefixed), map_id.
    apply Join_Split.
Qed.

(** ** The order of the child URLs *)

Lemma parseURLs_templates_compile (w : World) (pageURL : URL)
    (body : string) (tpls : list string) :
  forallb (compiles w body) tpls = true ->
  parseURLs_templates w pageURL body tpls
  = (map Send (flat_map (fun tpl => map (child pageURL)
                                        (template_matches w body tpl)) tpls),
     true).
Proof.
  induction tpls as [|tpl rest IH]; intros C; [reflexivity|].
  cbn [forallb] in C. apply andb_true_iff in C. destruct C as [C1 C2].
  cbn [parseURLs_templates flat_map].
  unfold compiles, template_pattern in C1.
  unfold template_matches at 1. unfold template_pattern.
  destruct (regexp_group1 w _ body) as [ms|]; [|discriminate].
  rewrite (IH C2). rewrite map_app, map_map. reflexivity.
Qed.

(** X4.  When every template compiles, [parseURLs] sends the child URLs
    template by template in the order of the page ranges, the matches of one
    template in the order the engine reports them, each as the page URL with
    the match joined onto its path and a slash after it; a link that two
    templates match is sent twice.  [src/main.go] then closes the channel,
    [part_000] sends the same URLs and leaves it open. *)
Theorem parseURLs_sends_in_template_order (w : World) (pageURL : URL)
    (body : string) (ranges : list string) :
  forallb (compiles w body) (buildLinkTemplates ranges) = true ->
  Plain.parseURLs w pageURL body ranges
  = (map Send (flat_map (fun tpl => map (child pageURL)
                                        (template_matches w body tpl))
                        (buildLinkTemplates ranges)) ++ [Close])%list
  /\ Cancellable.parseURLs w pageURL body ranges
     = map Send (flat_map (fun tpl => map (child pageURL)
                                          (template_matches w body tpl))
                          (buildLinkTemplates ranges)).
Proof.
  intros C. unfold Plain.parseURLs, Cancellable.parseURLs, parseURLs_sends.
  rewrite (parseURLs_templates_compile w pageURL body _ C). now split.
Qed.

Lemma parseURLs_sends_in_template_order_witness :
  forallb (compiles (archive [] None)
             (link "tileSG-2/" "2" ++ link "tileSG-1/" "1"))
          (buildLinkTemplates ["1"; "2|1"]) = true
  /\ Plain.parseURLs (archive [] None) archive_root
       (link "tileSG-2/" "2" ++ link "tileSG-1/" "1") ["1"; "2|1"]
     = [Send archive_page1; Send archive_page2; Send archive_page1; Close].
Proof.
  split; [reflexivity|].
  rewrite (proj1 (parseURLs_sends_in_template_order (archive [] None)
                    archive_root
                    (link "tileSG-2/" "2" ++ link "tileSG-1/" "1")
                    ["1"; "2|1"] eq_refl)).
  vm_compute. reflexivity.
Defined.

Lemma parseURLs_templates_panic (w : World) (pageURL : URL)
    (body : string) (good : list string) (bad : string) (rest : list string) :
  forallb (compiles w body) good = true ->
  compiles w body bad = false ->
  parseURLs_templates w pageURL body (good ++ bad :: rest)
  = ((map Send (flat_map (fun tpl => map (child pageURL)
                                         (template_matches w body tpl)) good)
        ++ [GoPanic "regexp: Compile"])%list,
     false).
Proof.
  intros G B. induction good as [|tpl good IH].
  - cbn [app parseURLs_templates flat_map map].
    unfold compiles, template_pattern in B.
    destruct (regexp_group1 w _ body); [discriminate | reflexivity].
  - cbn [forallb] in G. apply andb_true_iff in G. destruct G as [C1 C2].
    cbn [app parseURLs_templates flat_map].
    unfold compiles, template_pattern in C1.
    unfold template_matches at 1. unfold template_pattern.
    destruct (regexp_group1 w _ body) as [ms|]; [|discriminate].
    rewrite (IH C2). rewrite map_app, map_map, <- app_assoc. reflexivity.
Qed.

(** X5.  A template that does not compile stops the producer of
    [parseURLs] with a panic of [regexp.MustCompile]: the children of the
    templates before it are sent, nothing of the templates after it is, and
    the channel is not closed, in both files. *)
Theorem parseURLs_panics_at_bad_template (w : World) (pageURL : URL)
    (body : string) (ranges good : list string) (bad : string)
    (rest : list string) :
  buildLinkTemplates ranges = (good ++ bad :: rest)%list ->
  forallb (compiles w body) good = true ->
  compiles w body bad = false ->
  Plain.parseURLs w pageURL body ranges
  = (map Send (flat_map (fun tpl => map (child pageURL)
                                        (template_matches w body tpl)) good)
       ++ [GoPanic "regexp: Compile"])%list
  /\ Cancellable.parseURLs w pageURL body ranges
     = Plain.parseURLs w pageURL body ranges.
Proof.
  intros E G B. unfold Plain.parseURLs, Cancellable.parseURLs, parseURLs_sends.
  rewrite E, (parseURLs_templates_panic w pageURL body good bad rest G B).
  now split.
Qed.

Lemma parseURLs_panics_at_bad_template_witness :
  buildLinkTemplates ["1"; "("; "2"] = (["tileSG-1"] ++ "tileSG-(" :: ["tileSG-2"])%list
  /\ forallb (compiles (picky (archive [] None))
                (link "tileSG-1/" "1" ++ link "tileSG-2/" "2"))
             ["tileSG-1"] = true
  /\ compiles (picky (archive [] None))
       (link "tileSG-1/" "1" ++ link "tileSG-2/" "2") "tileSG-(" = false
  /\ Plain.parseURLs (picky (archive [] None)) archive_root
       (link "tileSG-1/" "1" ++ link "tileSG-2/" "2") ["1"; "("; "2"]
     = [Send archive_page1; GoPanic "regexp: Compile"].
Proof.
  split; [reflexivity|]. split; [reflexivity|]. split; [reflexivity|].
  rewrite (proj1 (parseURLs_panics_at_bad_template (picky (archive [] None))
                    archive_root
                    (link "tileSG-1/" "1" ++ link "tileSG-2/" "2")
                    ["1"; "("; "2"] ["tileSG-1"] "tileSG-(" ["tileSG-2"]
                    eq_refl eq_refl eq_refl)).
  vm_compute. reflexivity.
Defined.

(** ** How [download] ends *)

Lemma createFile_ends (w : World) (config : Config) (urlPath : string)
    (t : nat) :
  (List.length (strings.Split "/" urlPath) < 3
   /\ createFile w config urlPath t = ([], Panic "slice bounds out of range"))
  \/ (3 <= List.length (strings.Split "/" urlPath)
      /\ exists es name, 
           createFile w config urlPath t = (es, Ret (name, None))
           \/ (createFile w config urlPath t
               = (es, Ret (name, Some (ErrCreate name))))
           \/ exists dir,
                createFile w config urlPath t
                = (es, Ret (name, Some (ErrMkdirAll dir)))).
Proof.
  destruct (Nat.lt_ge_cases (List.length (strings.Split "/" urlPath)) 3)
    as [H|H].
  - left. split; [exact H | now apply createFile_short].
  - right. split; [exact H|].
    destruct (last_three _ H) as (pre & d1 & d2 & f & E).
    rewrite (createFile_three w config urlPath pre d1 d2 f t E).
    unfold createFile_in.
    destruct (os_Stat_IsNotExist w t _).
    + destruct (os_MkdirAll w (t + 1) _).
      * destruct (os_Create w (t + 2) _); eauto 6.
      * eauto 7.
    + destruct (os_Create w (t + 1) _); eauto 6.
Qed.

(** X6.  [download] never hands the failure of its request to the caller:
    it exits the process exactly when the request fails.  It panics exactly
    when the request succeeded and the URL path has fewer than three parts,
    so the request is made before the path is looked at.  It never blocks,
    and the errors it does return are a failure of [createFile], with zero
    bytes, or a failure of the copy. *)
Theorem download_outcomes (w : World) (config : Config) (url : URL)
    (t : nat) :
  (snd (download w config url t) = Exit 1 <-> http_Do w t url = None)
  /\ ((exists msg, snd (download w config url t) = Panic msg) <->
      (http_Do w t url <> None
       /\ List.length (strings.Split "/" (Path url)) < 3))
  /\ snd (download w config url t) <> Block
  /\ (forall n err,
        snd (download w config url t) = Ret (n, Some err) ->
        (n = 0%Z /\ exists e, err = ErrDownload e)
        \/ exists file, err = ErrCopy file).
Proof.
  rewrite download_cases.
  assert (Sm : forall b : Body, Some b <> None) by discriminate.
  destruct (http_Do w t url) as [body|].
  - destruct (createFile_ends w config (Path url) (t + 1))
      as [[Short ->]|[Long (es & name & [->|[->|[dir ->]]])]]; cbn [snd].
    + repeat split; intros; try discriminate; eauto.
    + destruct (io_Copy w (t + 1 + elapsed es) name body) as [n [|]];
        cbn [snd]; repeat split; intros;
        repeat match goal with
               | H : exists _, _ |- _ => destruct H
               | H : _ /\ _ |- _ => destruct H
               end; try discriminate; try lia.
      match goal with H : Ret _ = Ret _ |- _ => injection H as <- <- end.
      right. eauto.
    + repeat split; intros;
        repeat match goal with
               | H : exists _, _ |- _ => destruct H
               | H : _ /\ _ |- _ => destruct H
               end; try discriminate; try lia.
      match goal with H : Ret _ = Ret _ |- _ => injection H as <- <- end.
      left. eauto.
    + repeat split; intros;
        repeat match goal with
               | H : exists _, _ |- _ => destruct H
               | H : _ /\ _ |- _ => destruct H
               end; try discriminate; try lia.
      match goal with H : Ret _ = Ret _ |- _ => injection H as <- <- end.
      left. eauto.
  - cbn [snd]. repeat split; intros;
      repeat match goal with
             | H : exists _, _ |- _ => destruct H
             | H : _ /\ _ |- _ => destruct H
             end; try discriminate; try contradiction.
Qed.

(** ** One file that cannot be written *)

Lemma Plain_handle_file_cases (w : World) (config : Config) (fileUrl : URL)
    (t : nat) :
  Plain.handle_file w config fileUrl t =
  match download w config fileUrl t with
  | (es, Ret (_, Some err)) =>
      ((es ++ [EvLogDownload fileUrl err])%list, Ret None)
  | (es, Ret (_, None)) => (es, Ret None)
  | (es, Panic msg) => (es, Panic msg)
  | (es, Exit code) => (es, Exit code)
  | (es, Block) => (es, Block)
  end.
Proof.
  unfold Plain.handle_file, bind.
  destruct (download w config fileUrl t) as [es r].
  destruct r as [[n [err|]]|msg|code|]; cbn; rewrite ?app_nil_r; reflexivity.
Qed.

(** X7.  When [download] returns an error for a file (the directory or the
    file could not be created, or the copy failed), [handle] logs it and
    goes on with the next file of the sub-page, in both files (in
    [part_000] after the poll, if the token is open). *)
Theorem file_write_failure_is_skipped (w : World) (config : Config)
    (fileUrl : URL) (rest : list chan_op) (t : nat) (n : Z) (err : error) :
  snd (download w config fileUrl t) = Ret (n, Some err) ->
  let es := fst (download w config fileUrl t) in
  let t' := t + elapsed es in
  range (Send fileUrl :: rest) (Plain.handle_file w config) t
  = ((es ++ EvLogDownload fileUrl err
         :: fst (range rest (Plain.handle_file w config) t'))%list,
     snd (range rest (Plain.handle_file w config) t'))
  /\ (terminate_closed w t = false ->
      range (Send fileUrl :: rest) (Cancellable.handle_file w config) t
      = ((EvPoll false :: es ++ EvLogDownload fileUrl err
            :: fst (range rest (Cancellable.handle_file w config) t'))%list,
         snd (range rest (Cancellable.handle_file w config) t'))).
Proof.
  intros D es t'. subst es t'. split.
  - rewrite range_send, Plain_handle_file_cases.
    destruct (download w config fileUrl t) as [es r]. cbn [fst snd] in *.
    subst r. rewrite elapsed_app. cbn [elapsed map tick list_sum].
    tidy_time. now rewrite <- app_assoc.
  - intros Open. rewrite range_send, handle_file_cases, Open.
    destruct (download w config fileUrl t) as [es r]. cbn [fst snd] in *.
    subst r.
    change (EvPoll false :: es ++ [EvLogDownload fileUrl err])%list
      with ([EvPoll false] ++ es ++ [EvLogDownload fileUrl err])%list.
    rewrite !elapsed_app. cbn [elapsed map tick list_sum].
    tidy_time. cbn [app]. now rewrite <- app_assoc.
Qed.

Lemma file_write_failure_is_skipped_witness :
  snd (download (read_only (archive [] None)) (out_config [tiles])
         archive_tile_a 4)
  = Ret (0%Z, Some (ErrDownload (ErrMkdirAll "/out/archive/tileSG-2")))
  /\ In (EvDownloading archive_tile_b)
        (fst (range [Send archive_tile_a; Send archive_tile_b; Close]
                (Plain.handle_file (read_only (archive [] None))
                   (out_config [tiles])) 4)).
Proof.
  split; [reflexivity|].
  rewrite (proj1 (file_write_failure_is_skipped (read_only (archive [] None))
                    (out_config [tiles]) archive_tile_a
                    [Send archive_tile_b; Close] 4 0%Z _ eq_refl)).
  vm_compute. intuition.
Defined.

(** ** What a Job returns *)

Lemma Plain_handle_page_cases (w : World) (config : Config) (u : URL)
    (t : nat) :
  Plain.handle_page w config u t =
  match getHTML w u t with
  | (es, Ret (_, Some err)) => ((es ++ [EvLogPage u err])%list, Ret None)
  | (es, Ret (html, None)) =>
      let '(es', r') :=
        range (Plain.getTifUrls u html) (Plain.handle_file w config)
              (t + elapsed es) in
      ((es ++ es')%list, r')
  | (es, Panic msg) => (es, Panic msg)
  | (es, Exit code) => (es, Exit code)
  | (es, Block) => (es, Block)
  end.
Proof.
  unfold Plain.handle_page, bind at 1.
  destruct (getHTML w u t) as [es r].
  destruct r as [[html [err|]]|msg|code|]; try reflexivity.
Qed.

Lemma Plain_handle_cases (w : World) (config : Config) (params : PageParam)
    (t : nat) :
  Plain.handle w config params t =
  match url_Parse w (Url params) with
  | None => ([], Panic "invalid memory address or nil pointer dereference")
  | Some baseURL =>
      match getHTML w baseURL t with
      | (es, Ret (_, Some err)) => (es, Ret (Some (ErrGetHTML err)))
      | (es, Ret (html, None)) =>
          match range (Plain.parseURLs w baseURL html (PageRanges params))
                      (Plain.handle_page w config) (t + elapsed es) with
          | (es', Ret (Some v)) => ((es ++ es')%list, Ret v)
          | (es', Ret None) => ((es ++ es')%list, Ret None)
          | (es', Panic msg) => ((es ++ es')%list, Panic msg)
          | (es', Exit code) => ((es ++ es')%list, Exit code)
          | (es', Block) => ((es ++ es')%list, Block)
          end
      | (es, Panic msg) => (es, Panic msg)
      | (es, Exit code) => (es, Exit code)
      | (es, Block) => (es, Block)
      end
  end.
Proof.
  unfold Plain.handle.
  destruct (url_Parse w (Url params)) as [baseURL|]; [|reflexivity].
  unfold bind at 1. destruct (getHTML w baseURL t) as [es r].
  destruct r as [[html [err|]]|msg|code|]; try reflexivity.
  - unfold ret. now rewrite app_nil_r.
  - unfold bind. destruct (range _ _ _) as [es' r'].
    destruct r' as [[v|]|msg|code|]; unfold ret; rewrite ?app_nil_r;
      reflexivity.
Qed.

(** What a loop returns from the enclosing function, its body returned. *)
Lemma range_returns {R} (P : R -> Prop) (body : URL -> M (option R)) :
  (forall u t v, snd (body u t) = Ret (Some v) -> P v) ->
  forall ops t v, snd (range ops body t) = Ret (Some v) -> P v.
Proof.
  intros B ops. induction ops as [|op ops IH]; intros t v.
  - discriminate.
  - destruct op as [u| |msg]; [|discriminate|discriminate].
    rewrite range_send. specialize (B u t).
    destruct (body u t) as [es r]. cbn [snd] in B.
    destruct r as [[v'|]|msg|code|]; cbn [snd]; try discriminate.
    + intros [= <-]. now apply B.
    + apply IH.
Qed.

Lemma Plain_handle_file_goes_on (w : World) (config : Config) (u : URL)
    (t : nat) (v : option error) :
  snd (Plain.handle_file w config u t) = Ret (Some v) -> False.
Proof.
  rewrite Plain_handle_file_cases.
  destruct (download w config u t) as [es r].
  destruct r as [[n [err|]]|msg|code|]; discriminate.
Qed.

Lemma Plain_handle_page_goes_on (w : World) (config : Config) (u : URL)
    (t : nat) (v : option error) :
  snd (Plain.handle_page w config u t) = Ret (Some v) -> False.
Proof.
  rewrite Plain_handle_page_cases.
  destruct (getHTML w u t) as [es r].
  destruct r as [[html [err|]]|msg|code|]; try discriminate.
  pose proof (range_returns (fun _ => False) (Plain.handle_file w config)
                (Plain_handle_file_goes_on w config)
                (Plain.getTifUrls u html) (t + elapsed es) v) as H.
  destruct (range _ _ _) as [es' r']. exact H.
Qed.

Lemma Cancellable_handle_file_returns_nil (w : World) (config : Config)
    (u : URL) (t : nat) (v : option error) :
  snd (Cancellable.handle_file w config u t) = Ret (Some v) -> v = None.
Proof.
  rewrite handle_file_cases. destruct (terminate_closed w t).
  - now intros [= <-].
  - destruct (download w config u t) as [es r].
    destruct r as [[n [err|]]|msg|code|]; discriminate.
Qed.

Lemma Cancellable_handle_page_returns_nil (w : World) (config : Config)
    (u : URL) (t : nat) (v : option error) :
  snd (Cancellable.handle_page w config u t) = Ret (Some v) -> v = None.
Proof.
  rewrite handle_page_cases. destruct (terminate_closed w t).
  - now intros [= <-].
  - destruct (getHTML w u t) as [es r].
    destruct r as [[html [err|]]|msg|code|]; try discriminate.
    pose proof (range_returns (fun v => v = None)
                  (Cancellable.handle_file w config)
                  (Cancellable_handle_file_returns_nil w config)
                  (Cancellable.getTifUrls u html) (t + elapsed es) v) as H.
    destruct (range _ _ _) as [es' r']. exact H.
Qed.

(** X8.  The only error that [handle] returns, in either file, is the
    failed fetch of the root page, wrapped: no failure of a sub-page or of a
    file comes back as the error of the Job. *)
Theorem handle_returns_only_the_root_error (w : World) (config : Config)
    (params : PageParam) (t : nat) (e : error) :
  snd (Plain.handle w config params t) = Ret (Some e)
  \/ snd (Cancellable.handle w config params t) = Ret (Some e) ->
  exists baseURL html err,
    url_Parse w (Url params) = Some baseURL
    /\ snd (getHTML w baseURL t) = Ret (html, Some err)
    /\ e = ErrGetHTML err.
Proof.
  rewrite Plain_handle_cases, handle_cases.
  destruct (url_Parse w (Url params)) as [baseURL|];
    [|intros [H|H]; discriminate H].
  destruct (getHTML w baseURL t) as [es r] eqn:G.
  destruct r as [[html [err|]]|msg|code|];
    try (intros [H|H]; discriminate H).
  - intros [H|H]; injection H as <-; exists baseURL, html, err;
      rewrite G; auto.
  - intros [H|H]; exfalso.
    + pose proof (range_returns (fun _ => False) (Plain.handle_page w config)
                    (Plain_handle_page_goes_on w config)
                    (Plain.parseURLs w baseURL html (PageRanges params))
                    (t + elapsed es)) as N.
      destruct (range _ _ _) as [es' r']. cbn [snd] in *.
      destruct r' as [[v|]|msg|code|]; try discriminate H.
      exact (N v eq_refl).
    + pose proof (range_returns (fun v => v = None)
                    (Cancellable.handle_page w config)
                    (Cancellable_handle_page_returns_nil w config)
                    (Cancellable.parseURLs w baseURL html (PageRanges params))
                    (t + elapsed es)) as N.
      destruct (range _ _ _) as [es' r']. cbn [snd] in *.
      destruct r' as [[v|]|msg|code|]; try discriminate H.
      rewrite (N v eq_refl) in H. discriminate H.
Qed.

Lemma handle_returns_only_the_root_error_witness :
  snd (Plain.handle (archive ["/archive/"] None) (out_config [tiles]) tiles 0)
  = Ret (Some (ErrGetHTML (ErrRequestPage archive_root (ErrDo archive_root))))
  /\ exists baseURL html err,
       url_Parse (archive ["/archive/"] None) (Url tiles) = Some baseURL
       /\ snd (getHTML (archive ["/archive/"] None) baseURL 0)
          = Ret (html, Some err)
       /\ ErrGetHTML (ErrRequestPage archive_root (ErrDo archive_root))
          = ErrGetHTML err.
Proof.
  split; [reflexivity|].
  exact (handle_returns_only_the_root_error (archive ["/archive/"] None)
           (out_config [tiles]) tiles 0 _ (or_introl eq_refl)).
Defined.

(** ** The Job of [src/main.go] always ends *)

Lemma ends_app_Close (ops : list chan_op) : ends (ops ++ [Close]) = true.
Proof.
  induction ops as [|op ops IH]; [reflexivity|]. now destruct op.
Qed.

Lemma ends_sends_app {A} (f : A -> URL) (l : list A) (ops : list chan_op) :
  ends (map (fun a => Send (f a)) l ++ ops) = ends ops.
Proof. induction l as [|a l IH]; [reflexivity | exact IH]. Qed.

Lemma parseURLs_templates_ends (w : World) (pageURL : URL) (body : string)
    (tpls : list string) :
  snd (parseURLs_templates w pageURL body tpls) = false ->
  ends (fst (parseURLs_templates w pageURL body tpls)) = true.
Proof.
  induction tpls as [|tpl rest IH]; cbn -[path.Join]; [discriminate|].
  destruct (regexp_group1 w _ body) as [ms|]; [|reflexivity].
  destruct (parseURLs_templates w pageURL body rest) as [ops ok].
  cbn -[path.Join] in *. intros ->.
  rewrite (ends_sends_app (fun m1 => set_Path pageURL
                                       (path.Join [Path pageURL; m1] ++ "/"))).
  now apply IH.
Qed.

Lemma Plain_parseURLs_ends (w : World) (pageURL : URL) (body : string)
    (ranges : list string) :
  ends (Plain.parseURLs w pageURL body ranges) = true.
Proof.
  unfold Plain.parseURLs, parseURLs_sends.
  pose proof (parseURLs_templates_ends w pageURL body
                (buildLinkTemplates ranges)) as E.
  destruct (parseURLs_templates w pageURL body (buildLinkTemplates ranges))
    as [ops [|]]; [apply ends_app_Close | now apply E].
Qed.

(** A loop over a channel that is closed, or whose producer panics, ends if
    its body does. *)
Lemma range_ends {R} (body : URL -> M (option R)) :
  (forall u t, snd (body u t) <> Block) ->
  forall ops t, ends ops = true -> snd (range ops body t) <> Block.
Proof.
  intros B ops. induction ops as [|op ops IH]; intros t E.
  - discriminate E.
  - destruct op as [u| |msg]; [|discriminate|discriminate].
    rewrite range_send. specialize (B u t).
    destruct (body u t) as [es r]. cbn [snd] in B.
    destruct r as [[v|]|msg|code|]; cbn [snd]; try discriminate.
    + now apply IH.
    + exact B.
Qed.

Lemma getHTML_returns (w : World) (u : URL) (t : nat) :
  exists html err, snd (getHTML w u t) = Ret (html, err).
Proof.
  rewrite getHTML_cases. destruct (http_Do w t u); cbn; eauto.
Qed.

Lemma Plain_handle_file_ends (w : World) (config : Config) (u : URL)
    (t : nat) :
  snd (Plain.handle_file w config u t) <> Block.
Proof.
  rewrite Plain_handle_file_cases.
  pose proof (download_cases w config u t) as D.
  destruct (http_Do w t u) as [body|].
  - destruct (createFile_ends w config (Path u) (t + 1))
      as [[_ E]|[_ (es & name & [E|[E|[dir E]]])]]; rewrite E in D;
      try (rewrite D; discriminate).
    destruct (io_Copy w (t + 1 + elapsed es) name body) as [n [|]];
      rewrite D; discriminate.
  - rewrite D. discriminate.
Qed.

Lemma Plain_handle_page_ends (w : World) (config : Config) (u : URL)
    (t : nat) :
  snd (Plain.handle_page w config u t) <> Block.
Proof.
  rewrite Plain_handle_page_cases.
  destruct (getHTML_returns w u t) as (html & err & G).
  destruct (getHTML w u t) as [es r]. cbn [snd] in G. subst r.
  destruct err as [err|]; [discriminate|].
  pose proof (range_ends (Plain.handle_file w config)
                (Plain_handle_file_ends w config)
                (Plain.getTifUrls u html) (t + elapsed es)
                (ends_app_Close _)) as N.
  destruct (range _ _ _) as [es' r']. exact N.
Qed.

(** X9.  The Job of [src/main.go] never waits for ever: [handle] returns,
    panics or exits, whatever the world answers, because both of its loops
    run over channels that their producers close; so [wg.Wait] in [main]
    is never held up by a Job. *)
Theorem Plain_handle_always_ends (w : World) (config : Config)
    (params : PageParam) (t : nat) :
  snd (Plain.handle w config params t) <> Block
  /\ process (run (Plain.handle w config) config) <> ProcessWaits.
Proof.
  assert (H : forall p t', snd (Plain.handle w config p t') <> Block).
  { intros p t'. rewrite Plain_handle_cases.
    destruct (url_Parse w (Url p)) as [baseURL|]; [|discriminate].
    destruct (getHTML_returns w baseURL t') as (html & err & G).
    destruct (getHTML w baseURL t') as [es r]. cbn [snd] in G. subst r.
    destruct err as [err|]; [discriminate|].
    pose proof (range_ends (Plain.handle_page w config)
                  (Plain_handle_page_ends w config)
                  (Plain.parseURLs w baseURL html (PageRanges p))
                  (t' + elapsed es) (Plain_parseURLs_ends _ _ _ _)) as N.
    destruct (range _ _ _) as [es' r']. cbn [snd] in N.
    destruct r' as [[v|]|msg|code|]; try discriminate. now contradiction N. }
  split; [apply H|].
  unfold process, run.
  destruct (existsb (fun j => crashes (snd j)) _); [discriminate|].
  destruct (existsb (fun j => blocks (snd j)) _) eqn:B; [|discriminate].
  exfalso. apply existsb_exists in B. destruct B as (j & J & Bj).
  apply in_map_iff in J. destruct J as (p & <- & _).
  unfold job, bind in Bj. specialize (H p 0).
  destruct (Plain.handle w config p 0) as [es r]. cbn [snd] in H.
  destruct r as [[e|]|msg|code|]; cbn in Bj; try discriminate Bj.
  now contradiction H.
Qed.

(** ** The Job of [part_000] returns nil only when cancelled *)

Section Stopping.

Variable closed : nat -> bool.

Lemma watch_reaches_Cancelled (t : nat) (pre : list event) :
  watch_all closed Start t pre = Some Cancelled ->
  exists pre', pre = (pre' ++ [EvPoll true])%list.
Proof.
  destruct pre as [|x l] using rev_ind; [discriminate|]. clear IHl.
  rewrite watch_all_app.
  destruct (watch_all closed Start t l) as [s1|]; [|discriminate].
  cbn. destruct (watch closed s1 (t + elapsed l) x) as [s2|] eqn:W;
    [|discriminate].
  intros [= ->]. exists l.
  destruct s1, x; cbn in W; try discriminate;
    repeat match type of W with
           | context [if ?c then _ else _] => destruct c eqn:?
           end; try discriminate.
  reflexivity.
Qed.

Lemma watch_reaches_Stopped (t : nat) (pre : list event) :
  watch_all closed Start t pre = Some Stopped ->
  exists pre' line, pre = (pre' ++ [EvPoll true; EvPrintln line])%list.
Proof.
  destruct pre as [|x l] using rev_ind; [discriminate|]. clear IHl.
  rewrite watch_all_app.
  destruct (watch_all closed Start t l) as [s1|] eqn:L; [|discriminate].
  cbn. destruct (watch closed s1 (t + elapsed l) x) as [s2|] eqn:W;
    [|discriminate].
  intros [= ->].
  assert (s1 = Cancelled /\ exists line, x = EvPrintln line)
    as [-> [line ->]].
  { destruct s1, x; cbn in W; try discriminate;
      repeat match type of W with
             | context [if ?c then _ else _] => destruct c eqn:?
             end; try discriminate.
    split; eauto. }
  apply watch_reaches_Cancelled in L. destruct L as [pre' ->].
  exists pre', line. now rewrite <- app_assoc.
Qed.

End Stopping.

(** X10.  The Job of [part_000] returns nil only by cancellation: if
    [handle] returns nil, the last two events of the Job are a poll that
    found the token closed and the line printed after it.  With the token
    open for ever it never returns nil, whatever the pages hold. *)
Theorem Cancellable_handle_returns_nil_only_cancelled (w : World)
    (config : Config) (params : PageParam) :
  snd (Cancellable.handle w config params 0) = Ret None ->
  exists pre line,
    fst (Cancellable.handle w config params 0)
    = (pre ++ [EvPoll true; EvPrintln line])%list
    /\ terminate_closed w (elapsed pre) = true.
Proof.
  rewrite handle_cases.
  destruct (url_Parse w (Url params)) as [baseURL|]; [|discriminate].
  pose proof (getHTML_watched w Start baseURL 0 (or_introl eq_refl)) as G.
  destruct (getHTML w baseURL 0) as [es r]. cbn [fst] in G.
  destruct r as [[html [err|]]|msg|code|]; try discriminate.
  destruct (range_watched w _ (handle_page_watched w config)
              (Cancellable.parseURLs w baseURL html (PageRanges params))
              (0 + elapsed es)) as (s2 & W2 & L2).
  pose proof (proj2 (Cancellable_loops_never_done w config baseURL html
                       (PageRanges params) (0 + elapsed es))) as Open.
  destruct (range _ _ _) as [es' r']. cbn [fst snd] in *.
  destruct r' as [[v|]|msg|code|]; try discriminate;
    [|intros _; now contradiction Open].
  intros _.
  destruct L2 as [[-> _]|[_ N]]; [|now destruct (N v)].
  assert (W : watch_all (terminate_closed w) Start 0 (es ++ es')
              = Some Stopped) by now rewrite watch_all_app, G.
  destruct (watch_reaches_Stopped _ _ _ W) as (pre & line & E).
  exists pre, line. split; [exact E|].
  rewrite E in W. apply watch_all_at in W.
  destruct W as (s1 & s3 & _ & W1 & _). cbn [Nat.add] in W1.
  destruct s1; cbn in W1; try discriminate.
  destruct (terminate_closed w (elapsed pre)); [reflexivity|discriminate].
Qed.

Lemma Cancellable_handle_returns_nil_only_cancelled_witness :
  snd (Cancellable.handle (archive [] (Some 3)) (out_config [tiles]) tiles 0)
  = Ret None
  /\ exists pre line,
       fst (Cancellable.handle (archive [] (Some 3)) (out_config [tiles])
              tiles 0)
       = (pre ++ [EvPoll true; EvPrintln line])%list
       /\ terminate_closed (archive [] (Some 3)) (elapsed pre) = true.
Proof.
  split; [reflexivity|].
  exact (Cancellable_handle_returns_nil_only_cancelled (archive [] (Some 3))
           (out_config [tiles]) tiles eq_refl).
Defined.

(** ** A Job without page ranges *)

(** X11.  With an empty list of page ranges no pattern is built and no
    sub-page is looked for: once the root page is fetched, the Job of
    [src/main.go] returns nil having done nothing else, and the Job of
    [part_000] waits for ever on its open channel. *)
Theorem handle_without_page_ranges (w : World) (config : Config)
    (params : PageParam) (baseURL : URL) (html : string) (t : nat) :
  PageRanges params = [] ->
  url_Parse w (Url params) = Some baseURL ->
  snd (getHTML w baseURL t) = Ret (html, None) ->
  Plain.handle w config params t = (fst (getHTML w baseURL t), Ret None)
  /\ Cancellable.handle w config params t
     = (fst (getHTML w baseURL t), Block).
Proof.
  intros E P G. rewrite Plain_handle_cases, handle_cases, P, E.
  destruct (getHTML w baseURL t) as [es r]. cbn [fst snd] in *. subst r.
  cbn. now rewrite app_nil_r.
Qed.

Lemma handle_without_page_ranges_witness :
  PageRanges {| Name := "none"; Url := Url tiles; PageRanges := [] |} = []
  /\ url_Parse (archive [] None) (Url tiles) = Some archive_root
  /\ Plain.handle (archive [] None) (out_config [])
       {| Name := "none"; Url := Url tiles; PageRanges := [] |} 0
     = ([EvDo archive_root true; EvReadAll archive_root true], Ret None).
Proof.
  split; [reflexivity|]. split; [reflexivity|].
  rewrite (proj1 (handle_without_page_ranges (archive [] None) (out_config [])
                    {| Name := "none"; Url := Url tiles; PageRanges := [] |}
                    archive_root _ 0 eq_refl eq_refl eq_refl)).
  reflexivity.
Defined.

(** ** Which file a URL is written to *)

(** X12.  [createFile] looks at the last three parts of the URL path only:
    two paths that end in the same three parts are stat-ed, made and
    created under the same names, so the second download truncates the file
    of the first. *)
Theorem createFile_same_last_three_parts (w : World) (config : Config)
    (p1 p2 : string) (pre1 pre2 : list string) (d1 d2 f : string) (t : nat) :
  strings.Split "/" p1 = (pre1 ++ [d1; d2; f])%list ->
  strings.Split "/" p2 = (pre2 ++ [d1; d2; f])%list ->
  createFile w config p1 t = createFile w config p2 t.
Proof.
  intros E1 E2.
  now rewrite (createFile_three w config p1 pre1 d1 d2 f t E1),
              (createFile_three w config p2 pre2 d1 d2 f t E2).
Qed.

Lemma createFile_same_last_three_parts_witness :
  strings.Split "/" "/archive/2020/vol1/p3/image1.tif"
  = (["" ; "archive"; "2020"] ++ ["vol1"; "p3"; "image1.tif"])%list
  /\ strings.Split "/" "/mirror/vol1/p3/image1.tif"
     = ([""; "mirror"] ++ ["vol1"; "p3"; "image1.tif"])%list
  /\ createFile (archive [] None) (out_config [])
       "/archive/2020/vol1/p3/image1.tif" 0
     = createFile (archive [] None) (out_config [])
         "/mirror/vol1/p3/image1.tif" 0.
Proof.
  split; [reflexivity|]. split; [reflexivity|].
  exact (createFile_same_last_three_parts (archive [] None) (out_config [])
           "/archive/2020/vol1/p3/image1.tif" "/mirror/vol1/p3/image1.tif"
           [""; "archive"; "2020"] [""; "mirror"]
           "vol1" "p3" "image1.tif" 0 eq_refl eq_refl).
Defined.

Lemma append_cancel_l (a b c : string) : a ++ b = a ++ c -> b = c.
Proof.
  induction a as [|x a IH]; cbn; [trivial|]. intros [= H]. now apply IH.
Qed.

Lemma createFile_in_name (w : World) (dir name file : string) (t : nat) :
  snd (createFile_in w dir name t) = Ret (file, None) -> file = name.
Proof.
  unfold createFile_in.
  destruct (os_Stat_IsNotExist w t dir).
  - destruct (os_MkdirAll w (t + 1) dir); [|discriminate].
    destruct (os_Create w (t + 2) name); [|discriminate]. now intros [= <-].
  - destruct (os_Create w (t + 1) name); [|discriminate]. now intros [= <-].
Qed.

Lemma Split_three (d1 d2 f : string) :
  strings.Split "/" d1 = [d1] -> strings.Split "/" d2 = [d2] ->
  strings.Split "/" f = [f] ->
  strings.Split "/" (d1 ++ String "/" (d2 ++ String "/" f)) = [d1; d2; f].
Proof.
  intros S1 S2 Sf. now rewrite !Split_append_sep, S1, S2, Sf.
Qed.

(** X13.  Under a clean target directory, two URL paths whose last three
    parts are plain and for which [createFile] opens the same file have the
    same last three parts: files of URLs that differ there never overwrite
    each other. *)
Theorem createFile_same_file_same_parts (w w' : World) (config : Config)
    (p p' : string) (pre pre' : list string) (d1 d2 f d1' d2' f' : string)
    (t t' : nat) (file : string) :
  path.Clean (TargetDir config) = TargetDir config ->
  TargetDir config <> "/" -> TargetDir config <> "." ->
  strings.Split "/" p = (pre ++ [d1; d2; f])%list ->
  strings.Split "/" p' = (pre' ++ [d1'; d2'; f'])%list ->
  plain d1 -> plain d2 -> plain f -> plain d1' -> plain d2' -> plain f' ->
  snd (createFile w config p t) = Ret (file, None) ->
  snd (createFile w' config p' t') = Ret (file, None) ->
  d1 = d1' /\ d2 = d2' /\ f = f'.
Proof.
  intros HT Hr Hd E E' P1 P2 Pf P1' P2' Pf' C C'.
  assert (W : forall q qpre a b c,
             strings.Split "/" q = (qpre ++ [a; b; c])%list ->
             strings.Split "/" a = [a] /\ strings.Split "/" b = [b]
             /\ strings.Split "/" c = [c]).
  { intros q qpre a b c Eq.
    pose proof (Split_fields_whole "/" q) as F. rewrite Eq in F.
    apply Forall_app in F. destruct F as [_ F].
    inversion F as [|? ? Sa F1]; subst. inversion F1 as [|? ? Sb F2]; subst.
    inversion F2 as [|? ? Sc _]; subst. auto. }
  destruct (W _ _ _ _ _ E) as (S1 & S2 & Sf).
  destruct (W _ _ _ _ _ E') as (S1' & S2' & Sf').
  rewrite (createFile_three w config p pre d1 d2 f t E) in C.
  rewrite (createFile_three w' config p' pre' d1' d2' f' t' E') in C'.
  apply createFile_in_name in C. apply createFile_in_name in C'.
  destruct (Join_plain_parts (TargetDir config) d1 d2 f HT Hr Hd P1 P2 Pf
              S1 S2 Sf) as [_ N].
  destruct (Join_plain_parts (TargetDir config) d1' d2' f' HT Hr Hd
              P1' P2' Pf' S1' S2' Sf') as [_ N'].
  rewrite N in C. rewrite N' in C'. rewrite C' in C.
  apply append_cancel_l in C.
  change ("/" ++ d1' ++ "/" ++ d2' ++ "/" ++ f')
    with (String "/" (d1' ++ "/" ++ d2' ++ "/" ++ f')) in C.
  change ("/" ++ d1 ++ "/" ++ d2 ++ "/" ++ f)
    with (String "/" (d1 ++ "/" ++ d2 ++ "/" ++ f)) in C.
  injection C as C.
  apply (f_equal (strings.Split "/")) in C.
  rewrite !Split_three in C by assumption.
  injection C as -> -> ->. auto.
Qed.

(** ** A Job started after the cancellation *)

(** X14.  No poll guards the root page: a Job of [part_000] whose token is
    already closed still fetches its root page; then, at its first sub-page,
    it finds the token closed, prints one line and returns nil without
    fetching the sub-page. *)
Theorem cancelled_job_still_fetches_root (w : World) (config : Config)
    (params : PageParam) (baseURL : URL) (html : string) (u : URL)
    (rest : list chan_op) :
  url_Parse w (Url params) = Some baseURL ->
  snd (getHTML w baseURL 0) = Ret (html, None) ->
  terminate_closed w (elapsed (fst (getHTML w baseURL 0))) = true ->
  Cancellable.parseURLs w baseURL html (PageRanges params) = Send u :: rest ->
  Cancellable.handle w config params 0
  = ((fst (getHTML w baseURL 0)
        ++ [EvPoll true; EvPrintln "handle is terminated"])%list,
     Ret None)
  /\ fst (getHTML w baseURL 0) <> [].
Proof.
  intros P G C S. split.
  - rewrite handle_cases, P.
    destruct (getHTML w baseURL 0) as [es r]. cbn [fst snd] in *. subst r.
    rewrite S, range_send, handle_page_cases. cbn [Nat.add]. now rewrite C.
  - rewrite getHTML_cases. destruct (http_Do w 0 baseURL); discriminate.
Qed.

Lemma cancelled_job_still_fetches_root_witness :
  url_Parse (archive [] (Some 0)) (Url tiles) = Some archive_root
  /\ terminate_closed (archive [] (Some 0)) 0 = true
  /\ Cancellable.handle (archive [] (Some 0)) (out_config [tiles]) tiles 0
     = ([EvDo archive_root true; EvReadAll archive_root true;
         EvPoll true; EvPrintln "handle is terminated"], Ret None).
Proof.
  split; [reflexivity|]. split; [reflexivity|].
  rewrite (proj1 (cancelled_job_still_fetches_root (archive [] (Some 0))
                    (out_config [tiles]) tiles archive_root _
                    archive_page1 [Send archive_page2]
                    eq_refl eq_refl eq_refl eq_refl)).
  reflexivity.
Defined.

Lemma createFile_same_file_same_parts_witness :
  path.Clean "/out" = "/out"
  /\ snd (createFile (archive [] None) (out_config [])
            "/archive/vol1/p3/image1.tif" 0)
     = Ret ("/out/vol1/p3/image1.tif", None)
  /\ snd (createFile (archive [] None) (out_config [])
            "/mirror/vol1/p3/image1.tif" 7)
     = Ret ("/out/vol1/p3/image1.tif", None)
  /\ ("vol1" = "vol1" /\ "p3" = "p3" /\ "image1.tif" = "image1.tif").
Proof.
  split; [reflexivity|]. split; [reflexivity|]. split; [reflexivity|].
  assert (P : forall e : string,
             e = "vol1" \/ e = "p3" \/ e = "image1.tif" -> plain e)
    by (intros e [-> | [-> | ->]]; repeat split; discriminate).
  refine (createFile_same_file_same_parts (archive [] None) (archive [] None)
            (out_config []) "/archive/vol1/p3/image1.tif"
            "/mirror/vol1/p3/image1.tif" [""; "archive"] [""; "mirror"]
            "vol1" "p3" "image1.tif" "vol1" "p3" "image1.tif" 0 7
            "/out/vol1/p3/image1.tif" eq_refl _ _ eq_refl eq_refl
            _ _ _ _ _ _ eq_refl eq_refl);
    try discriminate; apply P; auto.
Defined.

(** ** From a rooted root URL to the file on disk *)

Lemma rooted_fold_dotdot (l : list string) (out : list string) :
  fst (fold_left (path.clean_step true) l (0, out)) = 0.
Proof.
  revert out. induction l as [|e l IH]; intros out; [reflexivity|].
  cbn [fold_left]. unfold path.clean_step at 2.
  destruct (String.eqb e ""); [apply IH|].
  destruct (String.eqb e "."); [apply IH|].
  destruct (String.eqb e ".."); [|apply IH].
  destruct out; apply IH.
Qed.

Lemma Clean_rooted (r : string) :
  path.Clean (String "/" r)
  = "/" ++ strings.Join (rooted_elems (String "/" r)) "/".
Proof.
  unfold path.Clean, rooted_elems. rewrite Ascii.eqb_refl.
  pose proof (rooted_fold_dotdot (strings.Split "/" (String "/" r)) []) as Z.
  destruct (fold_left _ _ _) as [dotdot out]. cbn [fst snd] in *. subst dotdot.
  reflexivity.
Qed.

Lemma rooted_fold_segments (l out : list string) :
  Forall (fun e => strings.Split "/" e = [e]) l ->
  Forall segment out ->
  Forall segment (snd (fold_left (path.clean_step true) l (0, out))).
Proof.
  revert out. induction l as [|e l IH]; intros out W G; [exact G|].
  inversion W as [|? ? We Wl]; subst. cbn [fold_left].
  unfold path.clean_step at 2.
  destruct (String.eqb_spec e ""); [now apply IH|].
  destruct (String.eqb_spec e "."); [now apply IH|].
  destruct (String.eqb_spec e "..").
  - destruct out; [now apply IH|]. apply IH; [exact Wl|].
    now inversion G.
  - apply IH; [exact Wl|]. constructor; [|exact G].
    split; [repeat split; assumption | exact We].
Qed.

Lemma rooted_elems_segments (p : string) : Forall segment (rooted_elems p).
Proof.
  unfold rooted_elems. apply Forall_rev.
  apply rooted_fold_segments; [apply Split_fields_whole | constructor].
Qed.

Lemma rooted_fold_push (els out : list string) :
  Forall segment els ->
  fold_left (path.clean_step true) els (0, out) = (0, (rev els ++ out)%list).
Proof.
  revert out. induction els as [|e els IH]; intros out G; [reflexivity|].
  inversion G as [|? ? [Pe _] Gl]; subst. cbn [fold_left rev].
  rewrite clean_step_plain by exact Pe. rewrite IH by exact Gl.
  now rewrite <- app_assoc.
Qed.

(** The rooted path made of segments splits into them and cleans to
    itself. *)
Lemma rooted_elems_of_segments (els : list string) :
  Forall segment els ->
  fold_left (path.clean_step true)
            (strings.Split "/" ("/" ++ strings.Join els "/")) (0, [])
  = (0, rev els).
Proof.
  intros G. change ("/" ++ strings.Join els "/")
    with (String "/" (strings.Join els "/")).
  cbn [strings.Split]. rewrite Ascii.eqb_refl. cbn [fold_left].
  change (path.clean_step true (0, []) "") with (0, @nil string).
  destruct els as [|e els]; [reflexivity|].
  rewrite Split_Join_fields.
  - rewrite rooted_fold_push by exact G. now rewrite app_nil_r.
  - discriminate.
  - eapply Forall_impl; [|exact G]. now intros a [_ Wa].
Qed.

Lemma rooted_elems_snoc (r e : string) :
  segment e ->
  rooted_elems (String "/" r ++ "/" ++ e)
  = (rooted_elems (String "/" r) ++ [e])%list.
Proof.
  intros [Pe We]. unfold rooted_elems.
  change (String "/" r ++ "/" ++ e) with (String "/" r ++ String "/" e).
  rewrite Split_append_sep, We, fold_left_app.
  pose proof (rooted_fold_dotdot (strings.Split "/" (String "/" r)) []) as Z.
  destruct (fold_left _ (strings.Split "/" (String "/" r)) _)
    as [dotdot out]. cbn [fst] in Z. subst dotdot.
  cbn [fold_left]. rewrite clean_step_plain by exact Pe. reflexivity.
Qed.

(** X15.  For a root URL with a rooted path, a sub-page link and a tile
    link that are single plain segments give a file URL whose path splits
    into the parts of the cleaned root path, the sub-page segment and the
    tile segment: it has at least three parts, with the sub-page segment and
    the tile name last, so [createFile] does not panic on it. *)
Theorem discovered_file_path_has_three_parts (w : World) (config : Config)
    (root : URL) (r m1 g : string) (t : nat) :
  Path root = String "/" r ->
  segment m1 -> segment g ->
  strings.Split "/"
    (path.Join [Path (child root m1); g])
  = (("" :: rooted_elems (Path root)) ++ [m1; g])%list
  /\ exists res,
       snd (createFile w config
              (Path (set_Path (child root m1)
                       (path.Join [Path (child root m1); g]))) t)
       = Ret res.
Proof.
  intros R M G.
  assert (S : strings.Split "/" (path.Join [Path (child root m1); g])
              = (("" :: rooted_elems (Path root)) ++ [m1; g])%list).
  { unfold child. cbn [Path set_Path]. rewrite R.
    rewrite (Join_two (String "/" r) m1) by discriminate.
    change (String "/" r ++ "/" ++ m1) with (String "/" (r ++ "/" ++ m1)).
    rewrite Clean_rooted.
    change (String "/" (r ++ "/" ++ m1)) with (String "/" r ++ "/" ++ m1).
    rewrite rooted_elems_snoc by exact M.
    set (els := (rooted_elems (String "/" r) ++ [m1])%list).
    assert (Gels : Forall segment els).
    { apply Forall_app. split; [apply rooted_elems_segments|].
      now constructor. }
    rewrite Join_two by discriminate.
    change (("/" ++ strings.Join els "/") ++ "/")
      with (String "/" (strings.Join els "/" ++ "/")).
    change (String "/" (strings.Join els "/" ++ "/") ++ "/" ++ g)
      with (String "/" ((strings.Join els "/" ++ "/") ++ "/" ++ g)).
    rewrite Clean_rooted. unfold rooted_elems.
    change (String "/" ((strings.Join els "/" ++ "/") ++ "/" ++ g))
      with ((("/" ++ strings.Join els "/") ++ String "/" "")
            ++ String "/" g).
    rewrite !Split_append_sep, !fold_left_app.
    rewrite (rooted_elems_of_segments els Gels).
    destruct G as [Pg Wg]. rewrite Wg. cbn [strings.Split fold_left].
    change (path.clean_step true (0, rev els) "") with (0, rev els).
    rewrite clean_step_plain by exact Pg. cbn [snd rev].
    rewrite rev_involutive.
    change ("/" ++ strings.Join (els ++ [g]) "/")
      with (String "/" (strings.Join (els ++ [g]) "/")).
    cbn [strings.Split]. rewrite Ascii.eqb_refl.
    rewrite Split_Join_fields.
    - subst els. now rewrite <- app_assoc.
    - destruct els; discriminate.
    - apply Forall_app. split.
      + eapply Forall_impl; [|exact Gels]. now intros a [_ Wa].
      + now constructor. }
  split; [exact S|].
  cbn [Path set_Path].
  assert (L : 3 <= List.length
                     (strings.Split "/" (path.Join [Path (child root m1); g]))).
  { rewrite S, length_app. cbn [List.length]. lia. }
  destruct (createFile_ends w config (path.Join [Path (child root m1); g]) t)
    as [[Short _]|[_ (es & name & [E|[E|[dir E]]])]];
    [lia | rewrite E; cbn [snd]; eauto ..].
Qed.

Lemma discovered_file_path_has_three_parts_witness :
  Path archive_root = String "/" "archive/"
  /\ strings.Split "/" "tileSG-1" = ["tileSG-1"]
  /\ strings.Split "/" "image1.tif" = ["image1.tif"]
  /\ strings.Split "/" (path.Join [Path (child archive_root "tileSG-1");
                                    "image1.tif"])
     = ["" ; "archive"; "tileSG-1"; "image1.tif"].
Proof.
  split; [reflexivity|]. split; [reflexivity|]. split; [reflexivity|].
  assert (P : forall e : string,
             e = "tileSG-1" \/ e = "image1.tif" -> plain e)
    by (intros e [-> | ->]; repeat split; discriminate).
  rewrite (proj1 (discovered_file_path_has_three_parts (archive [] None)
                    (out_config []) archive_root "archive/" "tileSG-1"
                    "image1.tif" 0 eq_refl
                    (conj (P _ (or_introl eq_refl)) eq_refl)
                    (conj (P _ (or_intror eq_refl)) eq_refl))).
  reflexivity.
Defined.
